(** * Stochastic RSI: the indicator pipeline of [src/indicators/stoch_rsi.py]

    A shallow embedding of [StochasticRSICalculator] and of its three
    stages ([_calculate_rsi], [_calculate_stoch_k], [_calculate_sma]) with
    the pipeline driver [calculate], followed by the properties of the
    pipeline.

    Modelling choices.
    - Python numbers are exact rationals ([Q]); [==] and [<] on numbers are
      [Qeq_bool] and [Qltb].  Rounding, overflow and NaN of IEEE doubles
      are outside the model.
    - Python exceptions are explicit: every operation of the source that
      can raise ([/], indexing, item assignment, [min]/[max] of an empty
      list, arithmetic on [None]) returns in the [result] monad.
    - Lists are [list]s read with stdpp's lookup [!!] and written with
      [<[i:=v]>] behind a bounds check that raises [IndexError], as
      Python's item assignment does.
    - Lengths, periods and indices are natural numbers; the configuration
      of the claims is four positive integers, and the theorems carry that
      as hypotheses.  Python's [i - period + 1] is written [i + 1 - period]
      since it is only evaluated for [period - 1 <= i]. *)

From Stdlib Require Import QArith Qabs Qround Lia Lqa ZArith.
From stdpp Require Import base option list strings gmap.

Set Default Proof Using "Type".
Local Open Scope Q_scope.

(** ** Exceptions and the error monad *)

Inductive exn : Type :=
  | ZeroDivisionError
  | IndexError
  | TypeError
  | ValueError.

Inductive result (A : Type) : Type :=
  | Ok (a : A)
  | Raise (e : exn).
Arguments Ok {A} a.
Arguments Raise {A} e.

#[export] Instance result_ret : MRet result := fun A a => Ok a.
#[export] Instance result_bind : MBind result := fun A B f m =>
  match m with
  | Ok a => f a
  | Raise e => Raise e
  end.

Definition returns {A} (m : result A) : Prop := exists a, m = Ok a.

(** ** Python primitives *)

Module Py.

Definition Qltb (x y : Q) : bool := negb (Qle_bool y x).

(** [x / y] on numbers. *)
Definition truediv (x y : Q) : result Q :=
  if Qeq_bool y 0 then Raise ZeroDivisionError else Ok (x / y).

(** An [int] used as a number. *)
Definition of_int (n : Z) : Q := inject_Z n.
Definition of_nat (n : nat) : Q := inject_Z (Z.of_nat n).

(** [l[i]] for [0 <= i]. *)
Definition getitem {A} (l : list A) (i : nat) : result A :=
  match l !! i with
  | Some x => Ok x
  | None => Raise IndexError
  end.

(** [l[i] = v] for [0 <= i]. *)
Definition setitem {A} (l : list A) (i : nat) (v : A) : result (list A) :=
  if (i <? length l)%nat then Ok (<[i:=v]> l) else Raise IndexError.

(** An operand that must not be [None]. *)
Definition number (o : option Q) : result Q :=
  match o with
  | Some x => Ok x
  | None => Raise TypeError
  end.

(** [max(a, b)] and [min(a, b)]: the first argument is kept unless the
    second is strictly greater (smaller). *)
Definition max2 (a b : Q) : Q := if Qltb a b then b else a.
Definition min2 (a b : Q) : Q := if Qltb b a then b else a.

(** [max(l)] and [min(l)] of a list. *)
Definition max (l : list Q) : result Q :=
  match l with
  | [] => Raise ValueError
  | x :: r => Ok (fold_left max2 r x)
  end.
Definition min (l : list Q) : result Q :=
  match l with
  | [] => Raise ValueError
  | x :: r => Ok (fold_left min2 r x)
  end.

(** [sum(l)]. *)
Definition sum (l : list Q) : Q := fold_left Qplus l 0.

(** [range(a, b)]. *)
Definition range (a b : nat) : list nat := seq a (b - a).

(** [for i in r: s = body(i, s)], stopping at the first exception. *)
Fixpoint for_each {S} (r : list nat) (body : nat -> S -> result S) (s : S)
  : result S :=
  match r with
  | [] => Ok s
  | i :: r' => s' ← body i s; for_each r' body s'
  end.

(** [[f(i) for i in r]]. *)
Fixpoint comprehension {A} (r : list nat) (f : nat -> result A)
  : result (list A) :=
  match r with
  | [] => Ok []
  | i :: r' => x ← f i; xs ← comprehension r' f; Ok (x :: xs)
  end.

End Py.

(** ** The data model *)

(** [StochRSIValue]: one reading, each field independently nullable. *)
Record StochRSIValue : Type := mkStochRSIValue {
  k : option Q;
  d : option Q;
  rsi : option Q
}.

(** [StochasticRSICalculator]: the four lengths set by [__init__]. *)
Record StochasticRSICalculator : Type := mkCalculator {
  rsi_length : nat;
  stoch_length : nat;
  k_smooth : nat;
  d_smooth : nat
}.

(** ** Stage 1: Wilder-smoothed RSI *)

(** The RSI of a pair of running averages (source lines 75-79 and 86-90,
    the same text at both places). *)
Definition rsi_of_averages (avg_gain avg_loss : Q) : result Q :=
  if Qeq_bool avg_loss 0 then
    Ok (if Py.Qltb 0 avg_gain then 100 else 0)
  else
    rs ← Py.truediv avg_gain avg_loss;
    q ← Py.truediv 100 (1 + rs);
    Ok (100 - q).

(** [deltas], [gains] and [losses] of a price list. *)
Definition deltas_of (closes : list Q) : result (list Q) :=
  Py.comprehension (Py.range 1 (length closes)) (fun i =>
    a ← Py.getitem closes i;
    b ← Py.getitem closes (i - 1);
    Ok (a - b)).

Definition gains_of (deltas : list Q) : list Q :=
  map (fun d => Py.max2 d 0) deltas.

Definition losses_of (deltas : list Q) : list Q :=
  map (fun d => Qabs (Py.min2 d 0)) deltas.

(** The state of the smoothing loop: the two running averages and the
    list being filled. *)
Record rsi_state : Type := mkRsiState {
  st_avg_gain : Q;
  st_avg_loss : Q;
  st_rsi_values : list (option Q)
}.

(** The averages of the first [period] gains and losses, and the RSI at
    index [period] (source lines 70-79). *)
Definition rsi_seed (gains losses : list Q) (period : nat)
    (rsi_values : list (option Q)) : result rsi_state :=
  avg_gain ← Py.truediv (Py.sum (take period gains)) (Py.of_nat period);
  avg_loss ← Py.truediv (Py.sum (take period losses)) (Py.of_nat period);
  r ← rsi_of_averages avg_gain avg_loss;
  rsi_values ← Py.setitem rsi_values period (Some r);
  Ok (mkRsiState avg_gain avg_loss rsi_values).

(** One iteration of Wilder's smoothing (source lines 83-90). *)
Definition rsi_step (gains losses : list Q) (period : nat)
    (i : nat) (s : rsi_state) : result rsi_state :=
  g ← Py.getitem gains (i - 1);
  avg_gain ← Py.truediv
    (st_avg_gain s * Py.of_int (Z.of_nat period - 1) + g) (Py.of_nat period);
  l ← Py.getitem losses (i - 1);
  avg_loss ← Py.truediv
    (st_avg_loss s * Py.of_int (Z.of_nat period - 1) + l) (Py.of_nat period);
  r ← rsi_of_averages avg_gain avg_loss;
  rsi_values ← Py.setitem (st_rsi_values s) i (Some r);
  Ok (mkRsiState avg_gain avg_loss rsi_values).

Definition _calculate_rsi (closes : list Q) (period : nat)
    : result (list (option Q)) :=
  if (length closes <? period + 1)%nat then
    Ok (replicate (length closes) None)
  else
    let rsi_values := replicate (length closes) None in
    deltas ← deltas_of closes;
    let gains := gains_of deltas in
    let losses := losses_of deltas in
    s ← rsi_seed gains losses period rsi_values;
    s ← Py.for_each (Py.range (period + 1) (length closes))
          (rsi_step gains losses period) s;
    Ok (st_rsi_values s).

(** ** The two window scans *)

(** The inner loop of both scans: the non-[None] values at the indices of
    [r], in order (source lines 112-115 and 146-149). *)
Definition collect_window (values : list (option Q)) (r : list nat)
    : result (list Q) :=
  Py.for_each r (fun j window =>
    v ← Py.getitem values j;
    match v with
    | Some x => Ok (window ++ [x])
    | None => Ok window
    end) [].

(** ** Stage 2: the stochastic transform *)

Definition stoch_k_body (rsi_values : list (option Q)) (period : nat)
    (i : nat) (k_values : list (option Q)) : result (list (option Q)) :=
  window ← collect_window rsi_values (Py.range (i + 1 - period) (i + 1));
  if (length window <? period)%nat then Ok k_values
  else
    min_rsi ← Py.min window;
    max_rsi ← Py.max window;
    if Qeq_bool max_rsi min_rsi then Py.setitem k_values i (Some 50)
    else
      v ← Py.getitem rsi_values i;
      x ← Py.number v;
      q ← Py.truediv (x - min_rsi) (max_rsi - min_rsi);
      Py.setitem k_values i (Some (q * 100)).

Definition _calculate_stoch_k (rsi_values : list (option Q)) (period : nat)
    : result (list (option Q)) :=
  let k_values := replicate (length rsi_values) None in
  Py.for_each (Py.range (period - 1) (length rsi_values))
    (stoch_k_body rsi_values period) k_values.

(** ** Stage 3: the simple moving average *)

Definition sma_body (values : list (option Q)) (period : nat)
    (i : nat) (sma_values : list (option Q)) : result (list (option Q)) :=
  window ← collect_window values (Py.range (i + 1 - period) (i + 1));
  if (length window =? period)%nat then
    m ← Py.truediv (Py.sum window) (Py.of_nat period);
    Py.setitem sma_values i (Some m)
  else Ok sma_values.

Definition _calculate_sma (values : list (option Q)) (period : nat)
    : result (list (option Q)) :=
  let sma_values := replicate (length values) None in
  Py.for_each (Py.range (period - 1) (length values))
    (sma_body values period) sma_values.

(** ** The pipeline driver *)

Definition null_reading : StochRSIValue := mkStochRSIValue None None None.

(** The guard of [calculate], on Python's integers. *)
Definition too_short (self : StochasticRSICalculator) (closes : list Q)
    : bool :=
  (Z.of_nat (length closes) <?
     Z.of_nat (rsi_length self) + Z.of_nat (stoch_length self)
     + Z.of_nat (k_smooth self) + Z.of_nat (d_smooth self) - 2)%Z.

Definition calculate (self : StochasticRSICalculator) (closes : list Q)
    : result (list StochRSIValue) :=
  if too_short self closes then
    Ok (replicate (length closes) null_reading)
  else
    rsi_values ← _calculate_rsi closes (rsi_length self);
    k_values ← _calculate_stoch_k rsi_values (stoch_length self);
    k_smoothed ← _calculate_sma k_values (k_smooth self);
    d_values ← _calculate_sma k_smoothed (d_smooth self);
    Py.for_each (Py.range 0 (length closes)) (fun i result =>
      kv ← Py.getitem k_smoothed i;
      dv ← Py.getitem d_values i;
      rv ← Py.getitem rsi_values i;
      Ok (result ++ [mkStochRSIValue kv dv rv])) [].

(** [calculate_stoch_rsi]: a fresh calculator per call. *)
Definition calculate_stoch_rsi (closes : list Q)
    (rsi_length stoch_length k_smooth d_smooth : nat)
    : result (list StochRSIValue) :=
  let calculator :=
    mkCalculator rsi_length stoch_length k_smooth d_smooth in
  calculate calculator closes.

(** * The caller: [StochRSICalculatorCore] of [src/core/calculator.py]

    The network client and the database are the environment of the
    caller.  A request to the client is answered by an oracle that may
    answer differently at each request; the database is the log of the
    calls made to it, oldest first.  Console output is not modelled, nor
    are failures inside the database or the HTTP library. *)

(** [BinanceClient]: what [get_klines] returns for the [n]-th request of
    the run ([[]] when the request fails). *)
Record BinanceClient : Type := mkClient {
  get_klines : nat -> string -> string -> nat -> list Q
}.

(** One entry of the list passed to [save_history]. *)
Record history_value : Type := mkHistoryValue {
  history_k : option Q;
  history_d : option Q;
  history_rsi : Q
}.

(** The calls [calculate_pair] makes on [self.db]. *)
Inductive db_call : Type :=
  | save_stoch_rsi_data (symbol timeframe : string)
      (k d rsi : option Q) (volume : Q)
  | save_candles (symbol timeframe : string) (closes : list Q)
  | save_history (symbol timeframe : string) (values : list history_value).

(** The environment: requests made so far and calls logged so far. *)
Record world : Type := mkWorld {
  requests : nat;
  db_log : list db_call
}.

(** [StochRSICalculatorCore]: the client it holds. *)
Record StochRSICalculatorCore : Type := mkCore {
  client : BinanceClient
}.

(** A dictionary [{'k': ..., 'd': ..., 'rsi': ...}] of the result. *)
Record rounded_value : Type := mkRounded {
  rounded_k : option Q;
  rounded_d : option Q;
  rounded_rsi : option Q
}.

(** The dictionary returned by [calculate_pair]: the error form, or the
    form with values. *)
Inductive pair_result : Type :=
  | pair_error (symbol error : string)
  | pair_values (symbol timeframe : string) (total_candles : nat)
      (last_values : list rounded_value) (current : option rounded_value).

(** [round(x, 4)] on an exact number: the nearest multiple of 1/10000,
    a tie going to the even one. *)
Definition round_half_even (x : Q) : Z :=
  let f := Qfloor x in
  match Qcompare (x - inject_Z f) (1 # 2) with
  | Lt => f
  | Gt => (f + 1)%Z
  | Eq => if Z.even f then f else (f + 1)%Z
  end.

Definition round4 (x : Q) : Q :=
  inject_Z (round_half_even (x * 10000)) / 10000.

(** [round(x, 4) if x else None]: [None] and 0 are falsy. *)
Definition round_if_truthy (o : option Q) : option Q :=
  match o with
  | Some x => if Qeq_bool x 0 then None else Some (round4 x)
  | None => None
  end.

(** [x if x else 0]. *)
Definition or_zero (o : option Q) : Q :=
  match o with
  | Some x => if Qeq_bool x 0 then 0 else x
  | None => 0
  end.

(** [v.k is not None and v.d is not None]. *)
Definition has_k_and_d (v : StochRSIValue) : bool :=
  match k v, d v with
  | Some _, Some _ => true
  | _, _ => false
  end.

(** [l[-5:]]. *)
Definition last_five {A} (l : list A) : list A := drop (length l - 5) l.

(** [[f(v) for v in l]]. *)
Fixpoint comprehension_of {A B} (l : list A) (f : A -> result B)
  : result (list B) :=
  match l with
  | [] => Ok []
  | v :: l' => x ← f v; xs ← comprehension_of l' f; Ok (x :: xs)
  end.

(** The entry of [result['last_values']] for a reading. *)
Definition rounded_of (v : StochRSIValue) : result rounded_value :=
  kx ← Py.number (k v);
  dx ← Py.number (d v);
  Ok (mkRounded (Some (round4 kx)) (Some (round4 dx))
        (round_if_truthy (rsi v))).

(** The entry of [history_values] for a reading. *)
Definition history_of (v : StochRSIValue) : history_value :=
  mkHistoryValue (k v) (d v) (or_zero (rsi v)).

(** The message of the error form. *)
Definition no_prices : string := "Não foi possível buscar preços".

(** [calculate_pair] once the prices are fetched and found non-empty
    (source lines 51-104). *)
Definition calculate_pair_values (symbol interval : string) (volume : Q)
    (closes : list Q) (w : world) : result (pair_result * world) :=
  stoch_rsi_values ← calculate_stoch_rsi closes 14 14 3 3;
  let valid_values := filter (fun v => has_k_and_d v = true)
                        stoch_rsi_values in
  let last_values :=
    match valid_values with
    | [] => []
    | _ :: _ => last_five valid_values
    end in
  let current := last stoch_rsi_values in
  rounded ← comprehension_of last_values rounded_of;
  let result :=
    pair_values symbol interval (length closes) rounded
      (match current with
       | Some c =>
           Some (mkRounded (round_if_truthy (k c)) (round_if_truthy (d c))
                   (round_if_truthy (rsi c)))
       | None => None
       end) in
  match current with
  | Some c =>
      if has_k_and_d c then
        let history_values := map history_of last_values in
        Ok (result,
            mkWorld (requests w)
              (db_log w ++
               [ save_stoch_rsi_data symbol interval (k c) (d c) (rsi c)
                   volume;
                 save_candles symbol interval closes;
                 save_history symbol interval history_values ]))
      else Ok (result, w)
  | None => Ok (result, w)
  end.

Definition calculate_pair (self : StochRSICalculatorCore)
    (symbol interval : string) (limit : nat) (volume : Q) (w : world)
    : result (pair_result * world) :=
  let closes := get_klines (client self) (requests w) symbol interval limit in
  let w := mkWorld (S (requests w)) (db_log w) in
  match closes with
  | [] => Ok (pair_error symbol no_prices, w)
  | _ :: _ => calculate_pair_values symbol interval volume closes w
  end.

(** [calculate_multiple]: one [calculate_pair] per symbol, in order;
    [symbol_volumes] is [None] or a dictionary, read with [.get(symbol,
    0)]. *)
Fixpoint calculate_pairs (self : StochRSICalculatorCore)
    (symbols : list string) (interval : string) (limit : nat)
    (symbol_volumes : gmap string Q) (results : list pair_result)
    (w : world) : result (list pair_result * world) :=
  match symbols with
  | [] => Ok (results, w)
  | symbol :: symbols' =>
      let volume := default 0 (symbol_volumes !! symbol) in
      rw ← calculate_pair self symbol interval limit volume w;
      calculate_pairs self symbols' interval limit symbol_volumes
        (results ++ [rw.1]) rw.2
  end.

Definition calculate_multiple (self : StochRSICalculatorCore)
    (symbols : list string) (interval : string) (limit : nat)
    (symbol_volumes : option (gmap string Q)) (w : world)
    : result (list pair_result * world) :=
  let symbol_volumes := default ∅ symbol_volumes in
  calculate_pairs self symbols interval limit symbol_volumes [] w.

(** * The vocabulary of the properties *)

(** The raw trailing window of [period] cells that ends at index [i]. *)
Definition window_at (values : list (option Q)) (period i : nat)
    : list (option Q) :=
  take period (drop (i + 1 - period) values).

(** The non-[None] values of a list of cells, in order. *)
Definition valid_values (w : list (option Q)) : list Q := omap id w.

(** What a scan leaves in cell [j]: the value of [cell j] when iteration
    [j] ran and produced one, the initial content otherwise. *)
Definition filled (cell : nat -> option Q) (a b : nat)
    (s0 : list (option Q)) (j : nat) : option (option Q) :=
  if decide (a <= j < b)%nat then
    match cell j with
    | Some v => if decide (j < length s0)%nat then Some (Some v) else None
    | None => s0 !! j
    end
  else s0 !! j.

(** The value written for a complete window [w] whose last value is [x]. *)
Definition stoch_k_value (x min_rsi max_rsi : Q) : Q :=
  if Qeq_bool max_rsi min_rsi then 50
  else (x - min_rsi) / (max_rsi - min_rsi) * 100.

(** What iteration [i] of [_calculate_stoch_k] writes, if anything. *)
Definition stoch_k_cell (rsi_values : list (option Q)) (period i : nat)
    : option Q :=
  let w := valid_values (window_at rsi_values period i) in
  if (length w <? period)%nat then None
  else
    match Py.min w, Py.max w, rsi_values !! i with
    | Ok mn, Ok mx, Some (Some x) => Some (stoch_k_value x mn mx)
    | _, _, _ => None
    end.

(** What iteration [i] of [_calculate_sma] writes, if anything. *)
Definition sma_cell (values : list (option Q)) (period i : nat) : option Q :=
  let w := valid_values (window_at values period i) in
  if (length w =? period)%nat then Some (Py.sum w / Py.of_nat period)
  else None.

(** A percentage: a number of the closed interval from 0 to 100. *)
Definition in_range (x : Q) : Prop := 0 <= x /\ x <= 100.

(** [deltas[j] = closes[j+1] - closes[j]], one delta per consecutive pair. *)
Definition is_delta (closes : list Q) (i : nat) (x : Q) : Prop :=
  exists a b, closes !! i = Some a /\ closes !! (i - 1)%nat = Some b /\
              x = a - b.

(** The state of the smoothing loop once index [i] has been written:
    the prefix of the source's loop that stops after iteration [i]
    ([i = period] is the seed alone). *)
Definition rsi_state_at (closes : list Q) (period i : nat)
    : result rsi_state :=
  deltas ← deltas_of closes;
  s ← rsi_seed (gains_of deltas) (losses_of deltas) period
        (replicate (length closes) None);
  Py.for_each (Py.range (period + 1) (i + 1))
    (rsi_step (gains_of deltas) (losses_of deltas) period) s.

(** What holds of that state. *)
Record rsi_inv (n period i : nat) (s : rsi_state) : Prop := {
  inv_gain : 0 <= st_avg_gain s;
  inv_loss : 0 <= st_avg_loss s;
  inv_length : length (st_rsi_values s) = n;
  inv_last : exists r,
    rsi_of_averages (st_avg_gain s) (st_avg_loss s) = Ok r /\
    st_rsi_values s !! i = Some (Some r);
  inv_null : forall j, (j < n)%nat -> (j < period \/ i < j)%nat ->
    st_rsi_values s !! j = Some None;
  inv_done : forall j, (period <= j <= i)%nat ->
    exists r, st_rsi_values s !! j = Some (Some r) /\ in_range r
}.

(** A list of cells whose first [a] cells are [None] and whose later cells
    hold numbers that satisfy [P]. *)
Definition warmup (a : nat) (P : Q -> Prop) (values : list (option Q))
    : Prop :=
  forall j, (j < length values)%nat ->
    if decide (j < a)%nat then values !! j = Some None
    else exists x, values !! j = Some (Some x) /\ P x.

(** The configuration of the claims: four positive integers. *)
Definition valid_config (self : StochasticRSICalculator) : Prop :=
  (0 < rsi_length self)%nat /\ (0 < stoch_length self)%nat /\
  (0 < k_smooth self)%nat /\ (0 < d_smooth self)%nat.

(** The threshold of the guard and the first index with a [d]. *)
Definition guard_length (self : StochasticRSICalculator) : nat :=
  (rsi_length self + stoch_length self + k_smooth self + d_smooth self - 2)%nat.
Definition first_d_index (self : StochasticRSICalculator) : nat :=
  (rsi_length self + stoch_length self + k_smooth self + d_smooth self - 3)%nat.
Definition first_k_index (self : StochasticRSICalculator) : nat :=
  (rsi_length self + stoch_length self + k_smooth self - 2)%nat.

(** Everything the full branch of [calculate] computes: the four stage
    outputs [rs], [kr], [ks], [ds] and the readings [out]. *)
Record full_run (self : StochasticRSICalculator) (closes : list Q)
    (rs kr ks ds : list (option Q)) (out : list StochRSIValue) : Prop := {
  run_rsi : _calculate_rsi closes (rsi_length self) = Ok rs;
  run_stoch : _calculate_stoch_k rs (stoch_length self) = Ok kr;
  run_sma_k : _calculate_sma kr (k_smooth self) = Ok ks;
  run_sma_d : _calculate_sma ks (d_smooth self) = Ok ds;
  run_rsi_shape : warmup (rsi_length self) in_range rs;
  run_k_raw_shape :
    warmup (rsi_length self + stoch_length self - 1) in_range kr;
  run_k_shape : warmup (first_k_index self) in_range ks;
  run_d_shape : warmup (first_d_index self) in_range ds;
  run_rsi_length : length rs = length closes;
  run_k_length : length ks = length closes;
  run_d_length : length ds = length closes;
  run_length : length out = length closes;
  run_zip : forall i, (i < length closes)%nat ->
    exists kv dv rv, ks !! i = Some kv /\ ds !! i = Some dv /\
      rs !! i = Some rv /\ out !! i = Some (mkStochRSIValue kv dv rv)
}.

(** The prices [1, 2, ..., 8] of the spec's concrete scenario. *)
Definition one_to_eight : list Q := [1; 2; 3; 4; 5; 6; 7; 8].

(** The null prefix in the words of the spec: below the first index of
    [d] every reading is null in all three fields. *)
Definition null_prefix_claim (self : StochasticRSICalculator)
    (closes : list Q) : Prop :=
  exists out, calculate self closes = Ok out /\
    forall i r, (i < first_d_index self)%nat -> out !! i = Some r ->
      k r = None /\ d r = None /\ rsi r = None.

(** The loose guard in the words of the spec: some input passes the guard
    and still gets an all-null output from the stages. *)
Definition loose_guard_claim : Prop :=
  exists self closes out,
    valid_config self /\ too_short self closes = false /\
    calculate self closes = Ok out /\
    forall i r, out !! i = Some r ->
      k r = None /\ d r = None /\ rsi r = None.



(** The lengths 2/2/1/1 of the spec's concrete scenario. *)
Definition scenario : StochasticRSICalculator := mkCalculator 2 2 1 1.

Ltac solve_config := unfold valid_config, scenario; simpl; lia.


(** The default lengths of [calculate_stoch_rsi], those of its callers. *)
Definition tradingview : StochasticRSICalculator := mkCalculator 14 14 3 3.

(** [result['symbol']]. *)
Definition result_symbol (r : pair_result) : string :=
  match r with
  | pair_error symbol _ => symbol
  | pair_values symbol _ _ _ _ => symbol
  end.

(** The readings kept for the history on 32 prices or more: the last
    five, or all those from index 31 when there are fewer. *)
Definition history_start (n : nat) : nat := (31 + (n - 36))%nat.









(** Concrete series for the examples: five rising prices, five falling
    ones, and thirty rising prices followed by three falling ones with a
    client that always answers with them. *)
Definition rising_five : list Q := [1; 2; 3; 4; 5].


Definition up_down : list Q :=
  map inject_Z
    [1; 2; 3; 4; 5; 6; 7; 8; 9; 10; 11; 12; 13; 14; 15; 16; 17; 18; 19; 20;
     21; 22; 23; 24; 25; 26; 27; 28; 29; 30; 29; 28; 27]%Z.

Definition up_down_client : BinanceClient :=
  mkClient (fun _ _ _ _ => up_down).

(** Two calculators for the examples, one whose client always answers
    with [up_down] and one whose client answers with [rising_five], and the
    environment before any request. *)
Definition up_down_core : StochRSICalculatorCore := mkCore up_down_client.

Definition rising_core : StochRSICalculatorCore :=
  mkCore (mkClient (fun _ _ _ _ => rising_five)).

Definition fresh_world : world := mkWorld 0 [].


(** * Properties *)

(** ** The error monad and the loops *)

Lemma getitem_Ok {A} (l : list A) (i : nat) (x : A) :
  Py.getitem l i = Ok x <-> l !! i = Some x.
Proof.
  unfold Py.getitem. destruct (l !! i); split; intros H;
    try discriminate; inversion H; reflexivity.
Qed.

Lemma getitem_lt {A} (l : list A) (i : nat) :
  (i < length l)%nat -> exists x, Py.getitem l i = Ok x /\ l !! i = Some x.
Proof.
  intros Hi. destruct (lookup_lt_is_Some_2 l i Hi) as [x Hx].
  exists x. split; [apply getitem_Ok|]; assumption.
Qed.

Lemma setitem_lt {A} (l : list A) (i : nat) (v : A) :
  (i < length l)%nat -> Py.setitem l i v = Ok (<[i:=v]> l).
Proof.
  intros Hi. unfold Py.setitem.
  destruct (Nat.ltb_spec i (length l)); [reflexivity | lia].
Qed.

Lemma range_length (a b : nat) : length (Py.range a b) = (b - a)%nat.
Proof. unfold Py.range. apply length_seq. Qed.

Lemma range_snoc (a b : nat) :
  (a <= b)%nat -> Py.range a (S b) = Py.range a b ++ [b].
Proof.
  intros H. unfold Py.range.
  replace (S b - a)%nat with (S (b - a)) by lia.
  rewrite seq_S. do 2 f_equal. lia.
Qed.

Lemma range_empty (a b : nat) : (b <= a)%nat -> Py.range a b = [].
Proof.
  intros H. unfold Py.range. replace (b - a)%nat with 0%nat by lia.
  reflexivity.
Qed.

Section Loops.
Context {S : Type}.
Implicit Types (body : nat -> S -> result S) (s : S) (r : list nat).

Lemma for_each_app r1 r2 body s :
  Py.for_each (r1 ++ r2) body s =
  (Py.for_each r1 body s ≫= Py.for_each r2 body).
Proof.
  revert s. induction r1 as [|i r1 IH]; intros s; simpl; [reflexivity|].
  destruct (body i s) as [s'|e]; simpl; [apply IH | reflexivity].
Qed.

(** The loop rule for [for i in range(a, b)]: an invariant indexed by
    the next index to run. *)
Lemma for_range_inv (I : nat -> S -> Prop) (a b : nat) body s :
  (a <= b)%nat ->
  I a s ->
  (forall i t, (a <= i < b)%nat -> I i t ->
     exists t', body i t = Ok t' /\ I (Datatypes.S i) t') ->
  exists s', Py.for_each (Py.range a b) body s = Ok s' /\ I b s'.
Proof.
  intros Hab Ha Hstep. induction b as [|b IH].
  - assert (a = 0)%nat as -> by lia. exists s. split; [reflexivity | exact Ha].
  - destruct (decide (a = Datatypes.S b)) as [->|Hne].
    + exists s. rewrite range_empty by lia. split; [reflexivity | exact Ha].
    + destruct IH as (t & Ht & HI); [lia | |].
      { intros i u Hi. apply Hstep. lia. }
      destruct (Hstep b t) as (t' & Hb & HI'); [lia | exact HI |].
      exists t'. rewrite range_snoc by lia.
      rewrite for_each_app, Ht. simpl. rewrite Hb. split; [reflexivity | exact HI'].
Qed.
End Loops.

(** ** Trailing windows *)

Lemma valid_values_length (w : list (option Q)) :
  (length (valid_values w) <= length w)%nat.
Proof.
  induction w as [|[x|] w IH]; simpl; [lia | | ]; unfold valid_values in *;
    simpl; lia.
Qed.

Lemma valid_values_fmap (w : list Q) : valid_values (Some <$> w) = w.
Proof.
  unfold valid_values. induction w as [|x w IH]; [reflexivity|].
  simpl. f_equal. exact IH.
Qed.

Lemma valid_values_full (w : list (option Q)) :
  length (valid_values w) = length w -> w = Some <$> valid_values w.
Proof.
  induction w as [|[x|] w IH]; intros H; [reflexivity | | ].
  - change (valid_values (Some x :: w)) with (x :: valid_values w) in *.
    simpl in H. simpl. f_equal. apply IH. lia.
  - change (valid_values (None :: w)) with (valid_values w) in H.
    pose proof (valid_values_length w). simpl in H. lia.
Qed.

Lemma valid_values_hole (w : list (option Q)) (j : nat) :
  w !! j = Some None -> (length (valid_values w) < length w)%nat.
Proof.
  revert j. induction w as [|[x|] w IH]; intros j H.
  - discriminate H.
  - destruct j as [|j]; [discriminate H|].
    change (valid_values (Some x :: w)) with (x :: valid_values w).
    simpl. specialize (IH j H). lia.
  - change (valid_values (None :: w)) with (valid_values w).
    pose proof (valid_values_length w). simpl. lia.
Qed.

Lemma window_at_length (values : list (option Q)) (period i : nat) :
  (period - 1 <= i < length values)%nat ->
  length (window_at values period i) = period.
Proof.
  intros H. unfold window_at. rewrite length_take, length_drop. lia.
Qed.

Lemma window_at_lookup (values : list (option Q)) (period i j : nat) :
  (j < period)%nat ->
  window_at values period i !! j = values !! (i + 1 - period + j)%nat.
Proof.
  intros H. unfold window_at. rewrite lookup_take_lt by exact H.
  apply lookup_drop.
Qed.

Lemma window_at_last (values : list (option Q)) (period i : nat) :
  (0 < period)%nat -> (period - 1 <= i)%nat ->
  window_at values period i !! (period - 1)%nat = values !! i.
Proof.
  intros Hp Hi. rewrite window_at_lookup by lia. f_equal. lia.
Qed.

(** The inner loop gathers exactly the valid values of the cells it
    visits, and raises nothing while the indices are in bounds. *)
Lemma collect_window_seq (values : list (option Q)) (a n : nat) :
  (a + n <= length values)%nat ->
  collect_window values (seq a n) =
  Ok (valid_values (take n (drop a values))).
Proof.
  unfold collect_window. intros H.
  enough (forall acc, Py.for_each (seq a n)
            (fun j window =>
               v ← Py.getitem values j;
               match v with
               | Some x => Ok (window ++ [x])
               | None => Ok window
               end) acc
          = Ok (acc ++ valid_values (take n (drop a values)))) as Hacc
    by (rewrite Hacc; reflexivity).
  revert a H. induction n as [|n IH]; intros a H acc.
  - simpl. rewrite app_nil_r. reflexivity.
  - destruct (getitem_lt values a) as (v & Hv & Hl); [lia|].
    simpl Py.for_each. rewrite Hv. simpl.
    rewrite (drop_S _ _ _ Hl). simpl take.
    destruct v as [x|]; simpl.
    + rewrite IH by lia.
      change (valid_values (Some x :: ?w)) with (x :: valid_values w).
      rewrite <- app_assoc. reflexivity.
    + rewrite IH by lia. reflexivity.
Qed.

Lemma collect_window_at (values : list (option Q)) (period i : nat) :
  (period - 1 <= i < length values)%nat ->
  collect_window values (Py.range (i + 1 - period) (i + 1)) =
  Ok (valid_values (window_at values period i)).
Proof.
  intros H. unfold Py.range, window_at.
  replace (i + 1 - (i + 1 - period))%nat with period by lia.
  apply collect_window_seq. lia.
Qed.

(** ** Scans that fill one cell per iteration *)

Lemma scan_fill (cell : nat -> option Q)
    (body : nat -> list (option Q) -> result (list (option Q)))
    (a b : nat) (s0 : list (option Q)) :
  (b <= length s0)%nat ->
  (forall i t, (a <= i < b)%nat -> length t = length s0 ->
     body i t = Ok (match cell i with
                    | Some v => <[i:=Some v]> t
                    | None => t
                    end)) ->
  exists out, Py.for_each (Py.range a b) body s0 = Ok out /\
    length out = length s0 /\
    forall j, out !! j = filled cell a b s0 j.
Proof.
  intros Hb Hbody.
  destruct (decide (a <= b)%nat) as [Hab|Hab].
  2:{ exists s0. rewrite range_empty by lia. split; [reflexivity|].
      split; [reflexivity|]. intros j. unfold filled.
      destruct (decide (a <= j < b)%nat); [lia | reflexivity]. }
  destruct (for_range_inv
    (fun i t => length t = length s0 /\
                forall j, t !! j = filled cell a i s0 j)
    a b body s0 Hab) as (out & Hout & Hlen & Hcells).
  - split; [reflexivity|]. intros j. unfold filled.
    destruct (decide (a <= j < a)%nat); [lia | reflexivity].
  - intros i t Hi [Hlen Hcells]. rewrite (Hbody i t Hi Hlen).
    eexists. split; [reflexivity|]. split.
    + destruct (cell i); [rewrite length_insert|]; exact Hlen.
    + intros j. unfold filled in *. specialize (Hcells j).
      destruct (decide (j = i)) as [->|Hne].
      * destruct (decide (a <= i < i)%nat); [lia|].
        destruct (decide (a <= i < S i)%nat); [|lia].
        destruct (cell i) as [v|]; [|exact Hcells].
        destruct (decide (i < length s0)%nat); [|lia].
        apply list_lookup_insert_eq. lia.
      * assert (t' : (match cell i with
                      | Some v => <[i:=Some v]> t
                      | None => t
                      end) !! j = t !! j).
        { destruct (cell i); [apply list_lookup_insert_ne; congruence | reflexivity]. }
        rewrite t', Hcells.
        destruct (decide (a <= j < i)%nat), (decide (a <= j < S i)%nat);
          try lia; reflexivity.
  - exists out. auto.
Qed.

Lemma filled_below (cell : nat -> option Q) (a b : nat)
    (s0 : list (option Q)) (j : nat) :
  (j < a)%nat -> filled cell a b s0 j = s0 !! j.
Proof.
  intros H. unfold filled. destruct (decide (a <= j < b)%nat); [lia | reflexivity].
Qed.

Lemma filled_at (cell : nat -> option Q) (a b n : nat) (j : nat) :
  (a <= j < b)%nat -> (b <= n)%nat ->
  filled cell a b (replicate n None) j = Some (cell j).
Proof.
  intros H Hn. unfold filled. destruct (decide (a <= j < b)%nat); [|lia].
  rewrite length_replicate.
  destruct (cell j).
  - destruct (decide (j < n)%nat); [reflexivity | lia].
  - apply lookup_replicate_2. lia.
Qed.

(** ** Comparisons on numbers *)

Lemma Qltb_lt (x y : Q) : Py.Qltb x y = true <-> x < y.
Proof.
  unfold Py.Qltb. rewrite negb_true_iff. split.
  - intros H. apply Qnot_le_lt. intros Hle.
    apply Qle_bool_iff in Hle. congruence.
  - intros H. destruct (Qle_bool y x) eqn:E; [|reflexivity].
    apply Qle_bool_iff in E. exfalso. apply (Qlt_not_le _ _ H E).
Qed.

Lemma Qltb_ge (x y : Q) : Py.Qltb x y = false <-> y <= x.
Proof.
  unfold Py.Qltb. rewrite negb_false_iff. apply Qle_bool_iff.
Qed.

Lemma Qeq_bool_false (x y : Q) : Qeq_bool x y = false <-> ~ x == y.
Proof.
  split.
  - intros H E. apply Qeq_bool_iff in E. congruence.
  - intros H. destruct (Qeq_bool x y) eqn:E; [|reflexivity].
    apply Qeq_bool_iff in E. contradiction.
Qed.

Lemma Qeq_bool_sub_false (x y : Q) :
  Qeq_bool x y = false -> Qeq_bool (x - y) 0 = false.
Proof.
  rewrite !Qeq_bool_false. intros H E. apply H. lra.
Qed.

Lemma of_nat_pos (n : nat) : (0 < n)%nat -> 0 < Py.of_nat n.
Proof.
  intros H. unfold Py.of_nat. change 0 with (inject_Z 0).
  rewrite <- Zlt_Qlt. lia.
Qed.

Lemma truediv_of_nat (x : Q) (n : nat) :
  (0 < n)%nat -> Py.truediv x (Py.of_nat n) = Ok (x / Py.of_nat n).
Proof.
  intros H. unfold Py.truediv.
  assert (E : Qeq_bool (Py.of_nat n) 0 = false).
  { apply Qeq_bool_false. pose proof (of_nat_pos n H). lra. }
  rewrite E. reflexivity.
Qed.

Lemma truediv_nonzero (x y : Q) :
  Qeq_bool y 0 = false -> Py.truediv x y = Ok (x / y).
Proof. intros E. unfold Py.truediv. rewrite E. reflexivity. Qed.

(** ** The stochastic transform, cell by cell *)

Lemma full_window_last (values : list (option Q)) (period i : nat) :
  (0 < period)%nat -> (period - 1 <= i < length values)%nat ->
  (period <= length (valid_values (window_at values period i)))%nat ->
  exists x, values !! i = Some (Some x).
Proof.
  intros Hp Hi Hfull.
  pose proof (valid_values_length (window_at values period i)) as Hle.
  pose proof (window_at_length values period i Hi) as Hlen.
  assert (Hw : window_at values period i =
               Some <$> valid_values (window_at values period i)).
  { apply valid_values_full. lia. }
  rewrite <- (window_at_last values period i) by lia.
  rewrite Hw, list_lookup_fmap.
  destruct (lookup_lt_is_Some_2
              (valid_values (window_at values period i)) (period - 1))
    as [x Hx]; [lia|].
  exists x. rewrite Hx. reflexivity.
Qed.

Lemma stoch_k_body_cell (rsi_values : list (option Q)) (period i : nat)
    (t : list (option Q)) :
  (0 < period)%nat -> (period - 1 <= i < length rsi_values)%nat ->
  (i < length t)%nat ->
  stoch_k_body rsi_values period i t =
  Ok (match stoch_k_cell rsi_values period i with
      | Some v => <[i:=Some v]> t
      | None => t
      end).
Proof.
  intros Hp Hi Ht. unfold stoch_k_body, stoch_k_cell.
  rewrite collect_window_at by exact Hi. simpl.
  destruct (Nat.ltb_spec
              (length (valid_values (window_at rsi_values period i))) period)
    as [Hshort|Hfull]; [reflexivity|].
  destruct (full_window_last rsi_values period i Hp Hi Hfull) as [x Hx].
  destruct (valid_values (window_at rsi_values period i)) as [|x0 w] eqn:Ew.
  { simpl in Hfull. lia. }
  simpl. rewrite Hx. unfold stoch_k_value.
  destruct (Qeq_bool (fold_left Py.max2 w x0) (fold_left Py.min2 w x0)) eqn:E.
  - apply setitem_lt. exact Ht.
  - unfold Py.getitem. rewrite Hx. simpl.
    rewrite truediv_nonzero by (apply Qeq_bool_sub_false; exact E). simpl.
    apply setitem_lt. exact Ht.
Qed.

(** The stage in one statement: it returns, keeps the length, and cell [j]
    holds what iteration [j] wrote. *)
Lemma calculate_stoch_k_cells (rsi_values : list (option Q)) (period : nat) :
  (0 < period)%nat ->
  exists k_values, _calculate_stoch_k rsi_values period = Ok k_values /\
    length k_values = length rsi_values /\
    forall j, (j < length rsi_values)%nat ->
      k_values !! j =
      Some (if decide (period - 1 <= j)%nat
            then stoch_k_cell rsi_values period j else None).
Proof.
  intros Hp. unfold _calculate_stoch_k.
  destruct (scan_fill (stoch_k_cell rsi_values period)
              (stoch_k_body rsi_values period) (period - 1)
              (length rsi_values) (replicate (length rsi_values) None))
    as (out & Hout & Hlen & Hcells).
  - rewrite length_replicate. lia.
  - intros i t Hi Hlen. rewrite length_replicate in Hlen.
    apply stoch_k_body_cell; [exact Hp | lia | lia].
  - exists out. rewrite length_replicate in Hlen.
    split; [exact Hout|]. split; [exact Hlen|].
    intros j Hj. rewrite Hcells.
    destruct (decide (period - 1 <= j)%nat) as [Hge|Hlt].
    + apply filled_at; lia.
    + rewrite filled_below by lia. apply lookup_replicate_2. exact Hj.
Qed.

(** ** The moving average, cell by cell *)

Lemma sma_body_cell (values : list (option Q)) (period i : nat)
    (t : list (option Q)) :
  (0 < period)%nat -> (period - 1 <= i < length values)%nat ->
  (i < length t)%nat ->
  sma_body values period i t =
  Ok (match sma_cell values period i with
      | Some v => <[i:=Some v]> t
      | None => t
      end).
Proof.
  intros Hp Hi Ht. unfold sma_body, sma_cell.
  rewrite collect_window_at by exact Hi. simpl.
  destruct (length (valid_values (window_at values period i)) =? period)%nat;
    [|reflexivity].
  rewrite truediv_of_nat by exact Hp. simpl.
  apply setitem_lt. exact Ht.
Qed.

Lemma calculate_sma_cells (values : list (option Q)) (period : nat) :
  (0 < period)%nat ->
  exists sma_values, _calculate_sma values period = Ok sma_values /\
    length sma_values = length values /\
    forall j, (j < length values)%nat ->
      sma_values !! j =
      Some (if decide (period - 1 <= j)%nat
            then sma_cell values period j else None).
Proof.
  intros Hp. unfold _calculate_sma.
  destruct (scan_fill (sma_cell values period)
              (sma_body values period) (period - 1)
              (length values) (replicate (length values) None))
    as (out & Hout & Hlen & Hcells).
  - rewrite length_replicate. lia.
  - intros i t Hi Hlen. rewrite length_replicate in Hlen.
    apply sma_body_cell; [exact Hp | lia | lia].
  - exists out. rewrite length_replicate in Hlen.
    split; [exact Hout|]. split; [exact Hlen|].
    intros j Hj. rewrite Hcells.
    destruct (decide (period - 1 <= j)%nat) as [Hge|Hlt].
    + apply filled_at; lia.
    + rewrite filled_below by lia. apply lookup_replicate_2. exact Hj.
Qed.

(** ** The RSI stage *)

Lemma max2_nonneg (x : Q) : 0 <= Py.max2 x 0.
Proof.
  unfold Py.max2. destruct (Py.Qltb x 0) eqn:E; [lra|].
  apply Qltb_ge in E. exact E.
Qed.

Lemma gains_nonneg (deltas : list Q) : Forall (Qle 0) (gains_of deltas).
Proof.
  unfold gains_of. apply Forall_forall. intros g Hg.
  apply list_elem_of_fmap in Hg as (x & -> & _). apply max2_nonneg.
Qed.

Lemma losses_nonneg (deltas : list Q) : Forall (Qle 0) (losses_of deltas).
Proof.
  unfold losses_of. apply Forall_forall. intros g Hg.
  apply list_elem_of_fmap in Hg as (x & -> & _). apply Qabs_nonneg.
Qed.

Lemma fold_plus_nonneg (l : list Q) (a : Q) :
  0 <= a -> Forall (Qle 0) l -> 0 <= fold_left Qplus l a.
Proof.
  intros Ha Hl. revert a Ha. induction Hl as [|x l Hx _ IH]; intros a Ha.
  - exact Ha.
  - simpl. apply IH. lra.
Qed.

Lemma sum_nonneg (l : list Q) : Forall (Qle 0) l -> 0 <= Py.sum l.
Proof. intros H. unfold Py.sum. apply fold_plus_nonneg; [lra | exact H]. Qed.

Lemma div_of_nat_nonneg (x : Q) (n : nat) :
  (0 < n)%nat -> 0 <= x -> 0 <= x / Py.of_nat n.
Proof.
  intros Hn Hx. apply Qle_shift_div_l; [apply of_nat_pos; exact Hn | lra].
Qed.

(** The RSI formula never divides by zero on non-negative averages, and
    its value lies in [0, 100]. *)
Lemma rsi_of_averages_range (g l : Q) :
  0 <= g -> 0 <= l ->
  exists r, rsi_of_averages g l = Ok r /\ in_range r.
Proof.
  intros Hg Hl. unfold rsi_of_averages, in_range.
  destruct (Qeq_bool l 0) eqn:E.
  - eexists. split; [reflexivity|]. destruct (Py.Qltb 0 g); lra.
  - apply Qeq_bool_false in E.
    assert (Hlpos : 0 < l) by lra.
    rewrite truediv_nonzero by (apply Qeq_bool_false; exact E). simpl.
    assert (Hrs : 0 <= g / l) by (apply Qle_shift_div_l; lra).
    assert (Hden : 0 < 1 + g / l) by lra.
    rewrite truediv_nonzero by (apply Qeq_bool_false; lra). simpl.
    eexists. split; [reflexivity|].
    assert (Hq1 : 0 <= 100 / (1 + g / l)) by (apply Qle_shift_div_l; lra).
    assert (Hq2 : 100 / (1 + g / l) <= 100) by (apply Qle_shift_div_r; lra).
    lra.
Qed.

(** The comprehension rule. *)
Lemma comprehension_Forall2 {A} (P : nat -> A -> Prop)
    (r : list nat) (f : nat -> result A) :
  Forall (fun i => exists x, f i = Ok x /\ P i x) r ->
  exists xs, Py.comprehension r f = Ok xs /\ Forall2 P r xs.
Proof.
  induction 1 as [|i r (x & Hx & HP) _ (xs & Hxs & IH)].
  - exists []. split; [reflexivity | constructor].
  - exists (x :: xs). simpl. rewrite Hx. simpl. rewrite Hxs. simpl.
    split; [reflexivity | constructor; assumption].
Qed.

Lemma deltas_of_spec (closes : list Q) :
  exists deltas, deltas_of closes = Ok deltas /\
    length deltas = (length closes - 1)%nat /\
    Forall2 (is_delta closes) (Py.range 1 (length closes)) deltas.
Proof.
  destruct (comprehension_Forall2 (is_delta closes)
              (Py.range 1 (length closes))
              (fun i => a ← Py.getitem closes i;
                        b ← Py.getitem closes (i - 1);
                        Ok (a - b)))
    as (deltas & Hd & HF).
  - apply Forall_forall. intros i Hi.
    unfold Py.range in Hi. apply elem_of_seq in Hi.
    destruct (getitem_lt closes i) as (a & Ha & Hla); [lia|].
    destruct (getitem_lt closes (i - 1)) as (b & Hb & Hlb); [lia|].
    exists (a - b). rewrite Ha. simpl. rewrite Hb. simpl.
    split; [reflexivity|]. exists a, b. auto.
  - exists deltas. split; [exact Hd|]. split; [|exact HF].
    apply Forall2_length in HF. rewrite range_length in HF. lia.
Qed.

Lemma wilder_nonneg (avg x : Q) (period : nat) :
  (0 < period)%nat -> 0 <= avg -> 0 <= x ->
  0 <= (avg * Py.of_int (Z.of_nat period - 1) + x) / Py.of_nat period.
Proof.
  intros Hp Ha Hx. apply div_of_nat_nonneg; [exact Hp|].
  assert (Hc : 0 <= Py.of_int (Z.of_nat period - 1)).
  { unfold Py.of_int. change 0 with (inject_Z 0). rewrite <- Zle_Qle. lia. }
  pose proof (Qmult_le_0_compat _ _ Ha Hc). lra.
Qed.

Lemma rsi_seed_inv (gains losses : list Q) (n period : nat) :
  (0 < period < n)%nat ->
  Forall (Qle 0) gains -> Forall (Qle 0) losses ->
  exists s, rsi_seed gains losses period (replicate n None) = Ok s /\
            rsi_inv n period period s.
Proof.
  intros Hp Hg Hl. unfold rsi_seed.
  rewrite !truediv_of_nat by lia. simpl.
  set (ag := Py.sum (take period gains) / Py.of_nat period).
  set (al := Py.sum (take period losses) / Py.of_nat period).
  assert (Hag : 0 <= ag).
  { apply div_of_nat_nonneg; [lia|]. apply sum_nonneg, Forall_take, Hg. }
  assert (Hal : 0 <= al).
  { apply div_of_nat_nonneg; [lia|]. apply sum_nonneg, Forall_take, Hl. }
  destruct (rsi_of_averages_range ag al Hag Hal) as (r & Hr & Hrange).
  rewrite Hr. simpl.
  rewrite setitem_lt by (rewrite length_replicate; lia). simpl.
  eexists. split; [reflexivity|].
  assert (Hat : <[period:=Some r]> (replicate n None) !! period
                = Some (Some r)).
  { apply list_lookup_insert_eq. rewrite length_replicate. lia. }
  constructor; simpl.
  - exact Hag.
  - exact Hal.
  - rewrite length_insert. apply length_replicate.
  - exists r. auto.
  - intros j Hj Hside. rewrite list_lookup_insert_ne by lia.
    apply lookup_replicate_2. exact Hj.
  - intros j Hj. assert (j = period) as -> by lia. exists r. auto.
Qed.

Lemma rsi_step_inv (gains losses : list Q) (n period i : nat)
    (s : rsi_state) :
  (0 < period)%nat -> (period < i < n)%nat ->
  length gains = (n - 1)%nat -> length losses = (n - 1)%nat ->
  Forall (Qle 0) gains -> Forall (Qle 0) losses ->
  rsi_inv n period (i - 1) s ->
  exists s', rsi_step gains losses period i s = Ok s' /\
             rsi_inv n period i s' /\
             forall j, j <> i ->
               st_rsi_values s' !! j = st_rsi_values s !! j.
Proof.
  intros Hp Hi Hlg Hll Hg Hl [Hag Hal Hlen _ Hnull Hdone].
  unfold rsi_step.
  destruct (getitem_lt gains (i - 1)) as (g & Hget & Hgl); [lia|].
  destruct (getitem_lt losses (i - 1)) as (l & Hlget & Hlo); [lia|].
  rewrite Hget. simpl. rewrite truediv_of_nat by exact Hp. simpl.
  rewrite Hlget. simpl. rewrite truediv_of_nat by exact Hp. simpl.
  assert (Hg0 : 0 <= g).
  { eapply Forall_lookup_1 in Hg; [exact Hg | exact Hgl]. }
  assert (Hl0 : 0 <= l).
  { eapply Forall_lookup_1 in Hl; [exact Hl | exact Hlo]. }
  pose proof (wilder_nonneg _ _ _ Hp Hag Hg0) as Hag'.
  pose proof (wilder_nonneg _ _ _ Hp Hal Hl0) as Hal'.
  destruct (rsi_of_averages_range _ _ Hag' Hal') as (r & Hr & Hrange).
  rewrite Hr. simpl. rewrite setitem_lt by lia. simpl.
  eexists. split; [reflexivity|]. split.
  - constructor; simpl.
    + exact Hag'.
    + exact Hal'.
    + rewrite length_insert. exact Hlen.
    + exists r. split; [exact Hr|]. apply list_lookup_insert_eq. lia.
    + intros j Hj Hside. rewrite list_lookup_insert_ne by lia.
      apply Hnull; lia.
    + intros j Hj. destruct (decide (j = i)) as [->|Hne].
      * exists r. split; [|exact Hrange]. apply list_lookup_insert_eq. lia.
      * rewrite list_lookup_insert_ne by congruence. apply Hdone. lia.
  - intros j Hne. simpl. apply list_lookup_insert_ne. congruence.
Qed.

Lemma range_split (a m b : nat) :
  (a <= m <= b)%nat -> Py.range a b = Py.range a m ++ Py.range m b.
Proof.
  intros H. unfold Py.range.
  replace (b - a)%nat with ((m - a) + (b - m))%nat by lia.
  rewrite seq_app. do 2 f_equal. lia.
Qed.

Lemma rsi_loop_inv (gains losses : list Q) (n period a b : nat)
    (s : rsi_state) :
  (0 < period)%nat -> (period <= a <= b)%nat -> (b < n)%nat ->
  length gains = (n - 1)%nat -> length losses = (n - 1)%nat ->
  Forall (Qle 0) gains -> Forall (Qle 0) losses ->
  rsi_inv n period a s ->
  exists s', Py.for_each (Py.range (a + 1) (b + 1))
               (rsi_step gains losses period) s = Ok s' /\
             rsi_inv n period b s' /\
             forall j, (j <= a)%nat ->
               st_rsi_values s' !! j = st_rsi_values s !! j.
Proof.
  intros Hp Hab Hb Hlg Hll Hg Hl Hinv.
  destruct (for_range_inv
    (fun k t => rsi_inv n period (k - 1) t /\
                forall j, (j <= a)%nat ->
                  st_rsi_values t !! j = st_rsi_values s !! j)
    (a + 1) (b + 1) (rsi_step gains losses period) s) as (s' & Hs' & HI & Hfr).
  - lia.
  - replace (a + 1 - 1)%nat with a by lia. split; [exact Hinv | reflexivity].
  - intros i t Hi [Hti Hfr].
    destruct (rsi_step_inv gains losses n period i t) as (t' & Ht' & Hinv' & Hne);
      try assumption; [lia|].
    exists t'. split; [exact Ht'|]. split.
    + replace (S i - 1)%nat with i by lia. exact Hinv'.
    + intros j Hj. rewrite Hne by lia. apply Hfr. exact Hj.
  - exists s'. replace (b + 1 - 1)%nat with b in HI by lia. auto.
Qed.

Lemma rsi_state_at_inv (closes : list Q) (period i : nat) :
  (0 < period)%nat -> (period <= i < length closes)%nat ->
  exists s, rsi_state_at closes period i = Ok s /\
            rsi_inv (length closes) period i s.
Proof.
  intros Hp Hi. unfold rsi_state_at.
  destruct (deltas_of_spec closes) as (deltas & Hd & Hlen & _).
  rewrite Hd. simpl.
  destruct (rsi_seed_inv (gains_of deltas) (losses_of deltas)
              (length closes) period) as (s & Hs & Hinv);
    [lia | apply gains_nonneg | apply losses_nonneg |].
  rewrite Hs. simpl.
  destruct (rsi_loop_inv (gains_of deltas) (losses_of deltas)
              (length closes) period period i s) as (s' & Hs' & Hinv' & _);
    try assumption; try lia.
  - unfold gains_of. rewrite length_map. exact Hlen.
  - unfold losses_of. rewrite length_map. exact Hlen.
  - apply gains_nonneg.
  - apply losses_nonneg.
  - exists s'. auto.
Qed.

(** The stage on a long enough series is the loop run to the last index. *)
Lemma calculate_rsi_unfold (closes : list Q) (period : nat) :
  (period < length closes)%nat ->
  _calculate_rsi closes period =
  (s ← rsi_state_at closes period (length closes - 1); Ok (st_rsi_values s)).
Proof.
  intros H. unfold _calculate_rsi, rsi_state_at.
  destruct (Nat.ltb_spec (length closes) (period + 1)); [lia|].
  replace (length closes - 1 + 1)%nat with (length closes) by lia.
  destruct (deltas_of closes) as [deltas|e]; [|reflexivity]. simpl.
  destruct (rsi_seed _ _ _ _) as [s|e]; reflexivity.
Qed.

(** Iterations after [i] leave cell [i] as iteration [i] wrote it. *)
Lemma rsi_state_at_stable (closes : list Q) (period i m : nat) :
  (0 < period)%nat -> (period <= i <= m)%nat -> (m < length closes)%nat ->
  exists s t, rsi_state_at closes period i = Ok s /\
              rsi_state_at closes period m = Ok t /\
              rsi_inv (length closes) period i s /\
              rsi_inv (length closes) period m t /\
              st_rsi_values t !! i = st_rsi_values s !! i.
Proof.
  intros Hp Hi Hm.
  destruct (rsi_state_at_inv closes period i) as (s & Hs & Hinv); [lia..|].
  exists s. unfold rsi_state_at in *.
  destruct (deltas_of_spec closes) as (deltas & Hd & Hlen & _).
  rewrite Hd in *. simpl in *.
  destruct (rsi_seed _ _ _ _) as [s0|e]; [|discriminate]. simpl in *.
  rewrite (range_split (period + 1) (i + 1) (m + 1)) by lia.
  rewrite for_each_app, Hs. simpl.
  destruct (rsi_loop_inv (gains_of deltas) (losses_of deltas)
              (length closes) period i m s) as (t & Ht & Hinv' & Hfr);
    try assumption; try lia.
  - unfold gains_of. rewrite length_map. exact Hlen.
  - unfold losses_of. rewrite length_map. exact Hlen.
  - apply gains_nonneg.
  - apply losses_nonneg.
  - exists t. split; [reflexivity|]. split; [exact Ht|].
    split; [exact Hinv|]. split; [exact Hinv'|]. apply Hfr. lia.
Qed.

(** ** Warm-up shapes *)

Lemma warmup_null (a : nat) (P : Q -> Prop) (values : list (option Q))
    (j : nat) :
  warmup a P values -> (j < length values)%nat -> (j < a)%nat ->
  values !! j = Some None.
Proof.
  intros H Hj Ha. specialize (H j Hj).
  destruct (decide (j < a)%nat); [exact H | lia].
Qed.

Lemma warmup_value (a : nat) (P : Q -> Prop) (values : list (option Q))
    (j : nat) :
  warmup a P values -> (a <= j < length values)%nat ->
  exists x, values !! j = Some (Some x) /\ P x.
Proof.
  intros H Hj. specialize (H j). destruct (decide (j < a)%nat); [lia|].
  apply H. lia.
Qed.

Lemma calculate_rsi_warmup (closes : list Q) (period : nat) :
  (0 < period)%nat ->
  exists out, _calculate_rsi closes period = Ok out /\
    length out = length closes /\
    warmup period in_range out.
Proof.
  intros Hp. destruct (decide (period < length closes)%nat) as [Hlong|Hshort].
  - rewrite calculate_rsi_unfold by exact Hlong.
    destruct (rsi_state_at_inv closes period (length closes - 1))
      as (s & Hs & [_ _ Hlen _ Hnull Hdone]); [lia..|].
    rewrite Hs. simpl. exists (st_rsi_values s).
    split; [reflexivity|]. split; [exact Hlen|].
    intros j Hj. rewrite Hlen in Hj.
    destruct (decide (j < period)%nat).
    + apply Hnull; [exact Hj | lia].
    + apply Hdone. lia.
  - unfold _calculate_rsi.
    destruct (Nat.ltb_spec (length closes) (period + 1)); [|lia].
    eexists. split; [reflexivity|]. rewrite length_replicate.
    split; [reflexivity|]. intros j Hj. rewrite length_replicate in Hj.
    destruct (decide (j < period)%nat); [|lia].
    apply lookup_replicate_2. exact Hj.
Qed.

Lemma all_values (P : Q -> Prop) (w : list (option Q)) :
  (forall j, (j < length w)%nat ->
     exists x, w !! j = Some (Some x) /\ P x) ->
  w = Some <$> valid_values w /\ Forall P (valid_values w).
Proof.
  induction w as [|c w IH]; intros H.
  - split; [reflexivity | constructor].
  - destruct (H 0%nat) as (x & Hx & HP); [simpl; lia|].
    simpl in Hx. injection Hx as ->.
    destruct IH as [IH1 IH2].
    { intros j Hj. apply (H (S j)). simpl. lia. }
    change (valid_values (Some x :: w)) with (x :: valid_values w).
    split; [simpl; f_equal; exact IH1 | constructor; assumption].
Qed.

(** Before [a + period - 1] the trailing window has a [None] in it. *)
Lemma window_incomplete (a : nat) (P : Q -> Prop)
    (values : list (option Q)) (period j : nat) :
  warmup a P values -> (0 < period)%nat ->
  (period - 1 <= j < length values)%nat -> (j < a + period - 1)%nat ->
  (length (valid_values (window_at values period j)) < period)%nat.
Proof.
  intros Hw Hp Hj Ha.
  rewrite <- (window_at_length values period j Hj) at 2.
  apply (valid_values_hole _ 0%nat).
  rewrite window_at_lookup by lia.
  apply (warmup_null a P); [exact Hw | lia | lia].
Qed.

(** From [a + period - 1] on the trailing window is complete. *)
Lemma window_complete (a : nat) (P : Q -> Prop)
    (values : list (option Q)) (period j : nat) :
  warmup a P values -> (0 < period)%nat ->
  (a + period - 1 <= j < length values)%nat ->
  exists w, window_at values period j = Some <$> w /\
            valid_values (window_at values period j) = w /\
            length w = period /\ Forall P w.
Proof.
  intros Hw Hp Hj.
  assert (Hlen : length (window_at values period j) = period)
    by (apply window_at_length; lia).
  destruct (all_values P (window_at values period j)) as [Heq HP].
  { intros i Hi. rewrite Hlen in Hi. rewrite window_at_lookup by exact Hi.
    apply (warmup_value a P); [exact Hw | lia]. }
  exists (valid_values (window_at values period j)).
  split; [exact Heq|]. split; [reflexivity|]. split; [|exact HP].
  rewrite Heq in Hlen at 1. rewrite length_fmap in Hlen. exact Hlen.
Qed.

(** ** [min], [max] and [sum] of a window *)

Lemma min2_le_l (x y : Q) : Py.min2 x y <= x.
Proof.
  unfold Py.min2. destruct (Py.Qltb y x) eqn:E; [|lra].
  apply Qltb_lt in E. lra.
Qed.

Lemma min2_le_r (x y : Q) : Py.min2 x y <= y.
Proof.
  unfold Py.min2. destruct (Py.Qltb y x) eqn:E; [lra|].
  apply Qltb_ge in E. exact E.
Qed.

Lemma max2_ge_l (x y : Q) : x <= Py.max2 x y.
Proof.
  unfold Py.max2. destruct (Py.Qltb x y) eqn:E; [|lra].
  apply Qltb_lt in E. lra.
Qed.

Lemma max2_ge_r (x y : Q) : y <= Py.max2 x y.
Proof.
  unfold Py.max2. destruct (Py.Qltb x y) eqn:E; [lra|].
  apply Qltb_ge in E. exact E.
Qed.

Lemma fold_min2_le (r : list Q) (x : Q) :
  fold_left Py.min2 r x <= x /\
  Forall (fun y => fold_left Py.min2 r x <= y) r.
Proof.
  revert x. induction r as [|y r IH]; intros x; simpl.
  - split; [lra | constructor].
  - destruct (IH (Py.min2 x y)) as [H1 H2].
    pose proof (min2_le_l x y). pose proof (min2_le_r x y).
    split; [lra|]. constructor; [lra | exact H2].
Qed.

Lemma fold_max2_ge (r : list Q) (x : Q) :
  x <= fold_left Py.max2 r x /\
  Forall (fun y => y <= fold_left Py.max2 r x) r.
Proof.
  revert x. induction r as [|y r IH]; intros x; simpl.
  - split; [lra | constructor].
  - destruct (IH (Py.max2 x y)) as [H1 H2].
    pose proof (max2_ge_l x y). pose proof (max2_ge_r x y).
    split; [lra|]. constructor; [lra | exact H2].
Qed.

Lemma min_bounds (w : list Q) (mn : Q) :
  Py.min w = Ok mn -> Forall (fun y => mn <= y) w.
Proof.
  destruct w as [|x r]; [discriminate|]. simpl. intros [= <-].
  destruct (fold_min2_le r x). constructor; assumption.
Qed.

Lemma max_bounds (w : list Q) (mx : Q) :
  Py.max w = Ok mx -> Forall (fun y => y <= mx) w.
Proof.
  destruct w as [|x r]; [discriminate|]. simpl. intros [= <-].
  destruct (fold_max2_ge r x). constructor; assumption.
Qed.

Lemma fold_min2_const (r : list Q) (x v : Q) :
  x == v -> Forall (fun y => y == v) r -> fold_left Py.min2 r x == v.
Proof.
  intros Hx Hr. revert x Hx. induction Hr as [|y r Hy _ IH]; intros x Hx.
  - exact Hx.
  - simpl. apply IH. unfold Py.min2. destruct (Py.Qltb y x); assumption.
Qed.

Lemma fold_max2_const (r : list Q) (x v : Q) :
  x == v -> Forall (fun y => y == v) r -> fold_left Py.max2 r x == v.
Proof.
  intros Hx Hr. revert x Hx. induction Hr as [|y r Hy _ IH]; intros x Hx.
  - exact Hx.
  - simpl. apply IH. unfold Py.max2. destruct (Py.Qltb x y); assumption.
Qed.

Lemma stoch_k_value_range (x mn mx : Q) :
  mn <= x -> x <= mx -> in_range (stoch_k_value x mn mx).
Proof.
  intros Hlo Hhi. unfold stoch_k_value, in_range.
  destruct (Qeq_bool mx mn) eqn:E; [lra|].
  apply Qeq_bool_false in E.
  assert (Hpos : 0 < mx - mn) by lra.
  assert (H0 : 0 <= (x - mn) / (mx - mn)) by (apply Qle_shift_div_l; lra).
  assert (H1 : (x - mn) / (mx - mn) <= 1) by (apply Qle_shift_div_r; lra).
  lra.
Qed.

Lemma of_nat_S (n : nat) : Py.of_nat (S n) == Py.of_nat n + 1.
Proof.
  unfold Py.of_nat. rewrite Nat2Z.inj_succ. unfold Z.succ.
  rewrite inject_Z_plus. reflexivity.
Qed.

Lemma fold_plus_range (w : list Q) (a : Q) :
  Forall in_range w ->
  a <= fold_left Qplus w a /\
  fold_left Qplus w a <= a + 100 * Py.of_nat (length w).
Proof.
  intros Hw. revert a. induction Hw as [|x w [Hx0 Hx1] _ IH]; intros a.
  - simpl fold_left. simpl length. change (Py.of_nat 0) with 0. lra.
  - simpl fold_left. simpl length. destruct (IH (a + x)) as [IH0 IH1].
    rewrite of_nat_S. lra.
Qed.

Lemma mean_range (w : list Q) (period : nat) :
  (0 < period)%nat -> length w = period -> Forall in_range w ->
  in_range (Py.sum w / Py.of_nat period).
Proof.
  intros Hp Hlen Hw. unfold Py.sum.
  destruct (fold_plus_range w 0 Hw) as [H0 H1]. rewrite Hlen in H1.
  pose proof (of_nat_pos period Hp). split.
  - apply Qle_shift_div_l; lra.
  - apply Qle_shift_div_r; lra.
Qed.

(** ** The stages on warm-up shapes *)

(** On a complete window the transform writes [stoch_k_value] of the
    current RSI and of the window's [min] and [max]. *)
Lemma stoch_k_cell_complete (rsi_values : list (option Q)) (period j : nat)
    (w : list Q) :
  (0 < period)%nat -> (period - 1 <= j < length rsi_values)%nat ->
  window_at rsi_values period j = Some <$> w ->
  exists x mn mx,
    rsi_values !! j = Some (Some x) /\ w !! (period - 1)%nat = Some x /\
    Py.min w = Ok mn /\ Py.max w = Ok mx /\ mn <= x /\ x <= mx /\
    stoch_k_cell rsi_values period j = Some (stoch_k_value x mn mx).
Proof.
  intros Hp Hj Hw.
  pose proof (window_at_length rsi_values period j Hj) as Hlen.
  rewrite Hw, length_fmap in Hlen.
  pose proof (window_at_last rsi_values period j Hp ltac:(lia)) as Hlast.
  rewrite Hw, list_lookup_fmap in Hlast.
  destruct (lookup_lt_is_Some_2 w (period - 1)) as [x Hx]; [lia|].
  rewrite Hx in Hlast. simpl in Hlast. symmetry in Hlast.
  unfold stoch_k_cell. rewrite Hw, valid_values_fmap, Hlen.
  rewrite Nat.ltb_irrefl, Hlast.
  destruct w as [|x0 r] eqn:Ew; [simpl in Hlen; lia|]. rewrite <- Ew in *.
  assert (Hmin : Py.min w = Ok (fold_left Py.min2 r x0)) by (rewrite Ew; reflexivity).
  assert (Hmax : Py.max w = Ok (fold_left Py.max2 r x0)) by (rewrite Ew; reflexivity).
  rewrite Hmin, Hmax.
  exists x, (fold_left Py.min2 r x0), (fold_left Py.max2 r x0).
  pose proof (Forall_lookup_1 _ _ _ _ (min_bounds w _ Hmin) Hx) as Hlo.
  pose proof (Forall_lookup_1 _ _ _ _ (max_bounds w _ Hmax) Hx) as Hhi.
  simpl in Hlo, Hhi. tauto.
Qed.

Lemma calculate_stoch_k_warmup (a : nat) (P : Q -> Prop)
    (rsi_values : list (option Q)) (period : nat) :
  (0 < period)%nat -> warmup a P rsi_values ->
  exists k_values, _calculate_stoch_k rsi_values period = Ok k_values /\
    length k_values = length rsi_values /\
    warmup (a + period - 1) in_range k_values.
Proof.
  intros Hp Hw.
  destruct (calculate_stoch_k_cells rsi_values period Hp)
    as (out & Hout & Hlen & Hcells).
  exists out. split; [exact Hout|]. split; [exact Hlen|].
  intros j Hj. rewrite Hlen in Hj. rewrite (Hcells j Hj).
  destruct (decide (j < a + period - 1)%nat) as [Hlt|Hge].
  - destruct (decide (period - 1 <= j)%nat) as [Hin|]; [|reflexivity].
    unfold stoch_k_cell.
    pose proof (window_incomplete a P rsi_values period j Hw Hp
                  ltac:(lia) Hlt) as Hshort.
    apply Nat.ltb_lt in Hshort. rewrite Hshort. reflexivity.
  - destruct (decide (period - 1 <= j)%nat) as [Hin|]; [|lia].
    destruct (window_complete a P rsi_values period j Hw Hp ltac:(lia))
      as (w & Heq & _).
    destruct (stoch_k_cell_complete rsi_values period j w Hp ltac:(lia) Heq)
      as (x & mn & mx & _ & _ & _ & _ & Hlo & Hhi & Hcell).
    rewrite Hcell. eexists. split; [reflexivity|].
    apply stoch_k_value_range; assumption.
Qed.

Lemma sma_cell_complete (values : list (option Q)) (period j : nat)
    (w : list Q) :
  (period - 1 <= j < length values)%nat ->
  window_at values period j = Some <$> w ->
  sma_cell values period j = Some (Py.sum w / Py.of_nat period).
Proof.
  intros Hj Hw.
  pose proof (window_at_length values period j Hj) as Hlen.
  rewrite Hw, length_fmap in Hlen.
  unfold sma_cell. rewrite Hw, valid_values_fmap, Hlen, Nat.eqb_refl.
  reflexivity.
Qed.

Lemma sma_cell_hole (values : list (option Q)) (period j i : nat) :
  (period - 1 <= j < length values)%nat -> (i < period)%nat ->
  window_at values period j !! i = Some None ->
  sma_cell values period j = None.
Proof.
  intros Hj Hi Hhole. unfold sma_cell.
  pose proof (valid_values_hole _ _ Hhole) as Hshort.
  rewrite (window_at_length values period j Hj) in Hshort.
  destruct (Nat.eqb_spec (length (valid_values (window_at values period j)))
              period); [lia | reflexivity].
Qed.

Lemma calculate_sma_warmup (a : nat) (values : list (option Q))
    (period : nat) :
  (0 < period)%nat -> warmup a in_range values ->
  exists sma_values, _calculate_sma values period = Ok sma_values /\
    length sma_values = length values /\
    warmup (a + period - 1) in_range sma_values.
Proof.
  intros Hp Hw.
  destruct (calculate_sma_cells values period Hp)
    as (out & Hout & Hlen & Hcells).
  exists out. split; [exact Hout|]. split; [exact Hlen|].
  intros j Hj. rewrite Hlen in Hj. rewrite (Hcells j Hj).
  destruct (decide (j < a + period - 1)%nat) as [Hlt|Hge].
  - destruct (decide (period - 1 <= j)%nat) as [Hin|]; [|reflexivity].
    rewrite (sma_cell_hole values period j 0); [reflexivity | lia | lia |].
    rewrite window_at_lookup by lia.
    apply (warmup_null a in_range); [exact Hw | lia | lia].
  - destruct (decide (period - 1 <= j)%nat) as [Hin|]; [|lia].
    destruct (window_complete a in_range values period j Hw Hp ltac:(lia))
      as (w & Heq & _ & Hwlen & Hrange).
    rewrite (sma_cell_complete values period j w ltac:(lia) Heq).
    eexists. split; [reflexivity|].
    apply mean_range; assumption.
Qed.

(** ** The pipeline driver *)

Lemma too_short_true (self : StochasticRSICalculator) (closes : list Q) :
  valid_config self ->
  too_short self closes = true <-> (length closes < guard_length self)%nat.
Proof.
  intros (HR & HS & HK & HD). unfold too_short, guard_length.
  rewrite Z.ltb_lt. lia.
Qed.

Lemma too_short_false (self : StochasticRSICalculator) (closes : list Q) :
  valid_config self ->
  too_short self closes = false <-> (guard_length self <= length closes)%nat.
Proof.
  intros (HR & HS & HK & HD). unfold too_short, guard_length.
  rewrite Z.ltb_ge. lia.
Qed.

(** The loop that zips the three lists into readings. *)
Lemma assemble_readings (ks ds rs : list (option Q)) (n : nat) :
  length ks = n -> length ds = n -> length rs = n ->
  exists out,
    Py.for_each (Py.range 0 n) (fun i result =>
      kv ← Py.getitem ks i;
      dv ← Py.getitem ds i;
      rv ← Py.getitem rs i;
      Ok (result ++ [mkStochRSIValue kv dv rv])) [] = Ok out /\
    length out = n /\
    forall i, (i < n)%nat ->
      exists kv dv rv, ks !! i = Some kv /\ ds !! i = Some dv /\
        rs !! i = Some rv /\ out !! i = Some (mkStochRSIValue kv dv rv).
Proof.
  intros Hk Hd Hr.
  destruct (for_range_inv
    (fun i res => length res = i /\
       forall j, (j < i)%nat ->
         exists kv dv rv, ks !! j = Some kv /\ ds !! j = Some dv /\
           rs !! j = Some rv /\ res !! j = Some (mkStochRSIValue kv dv rv))
    0 n (fun i result =>
      kv ← Py.getitem ks i;
      dv ← Py.getitem ds i;
      rv ← Py.getitem rs i;
      Ok (result ++ [mkStochRSIValue kv dv rv])) []) as (out & Hout & HI).
  - lia.
  - split; [reflexivity|]. intros j Hj. lia.
  - intros i t Hi [Hlen Hcells].
    destruct (getitem_lt ks i) as (kv & Hkv & Hkl); [lia|].
    destruct (getitem_lt ds i) as (dv & Hdv & Hdl); [lia|].
    destruct (getitem_lt rs i) as (rv & Hrv & Hrl); [lia|].
    rewrite Hkv. simpl. rewrite Hdv. simpl. rewrite Hrv. simpl.
    eexists. split; [reflexivity|]. split.
    + rewrite length_app. simpl. lia.
    + intros j Hj. destruct (decide (j = i)) as [->|Hne].
      * exists kv, dv, rv. repeat (split; [assumption|]).
        rewrite lookup_app_r by lia. rewrite Hlen, Nat.sub_diag. reflexivity.
      * destruct (Hcells j) as (kv' & dv' & rv' & H1 & H2 & H3 & H4); [lia|].
        exists kv', dv', rv'. repeat (split; [assumption|]).
        rewrite lookup_app_l by lia. exact H4.
  - exists out. destruct HI as [Hlen Hcells]. auto.
Qed.

Lemma calculate_full (self : StochasticRSICalculator) (closes : list Q) :
  valid_config self -> too_short self closes = false ->
  exists rs kr ks ds out,
    calculate self closes = Ok out /\ full_run self closes rs kr ks ds out.
Proof.
  intros Hcfg Hlong. pose proof Hcfg as (HR & HS & HK & HD).
  unfold calculate. rewrite Hlong.
  destruct (calculate_rsi_warmup closes (rsi_length self) HR)
    as (rs & Hrs & Hrlen & Hrw).
  destruct (calculate_stoch_k_warmup _ _ rs (stoch_length self) HS Hrw)
    as (kr & Hkr & Hkrlen & Hkrw).
  destruct (calculate_sma_warmup _ kr (k_smooth self) HK Hkrw)
    as (ks & Hks & Hkslen & Hksw).
  destruct (calculate_sma_warmup _ ks (d_smooth self) HD Hksw)
    as (ds & Hds & Hdslen & Hdsw).
  rewrite Hrs. simpl. rewrite Hkr. simpl. rewrite Hks. simpl.
  rewrite Hds. simpl.
  destruct (assemble_readings ks ds rs (length closes))
    as (out & Hout & Hlen & Hzip); [congruence..|].
  exists rs, kr, ks, ds, out. split; [exact Hout|].
  constructor; try assumption; try congruence.
  - unfold first_k_index.
    replace (rsi_length self + stoch_length self + k_smooth self - 2)%nat
      with (rsi_length self + stoch_length self - 1 + k_smooth self - 1)%nat
      by lia.
    exact Hksw.
  - unfold first_d_index.
    replace (rsi_length self + stoch_length self + k_smooth self
             + d_smooth self - 3)%nat
      with (rsi_length self + stoch_length self - 1 + k_smooth self - 1
            + d_smooth self - 1)%nat by lia.
    exact Hdsw.
Qed.

(** * The claims *)

(** The short-circuit branch, as the guard reads on Python's integers. *)
Lemma calculate_short (self : StochasticRSICalculator) (closes : list Q) :
  too_short self closes = true ->
  calculate self closes = Ok (replicate (length closes) null_reading).
Proof. intros H. unfold calculate. rewrite H. reflexivity. Qed.

(** C1. Length invariant: for every price sequence and every configuration
    of four positive integers, [calculate] returns a sequence of exactly
    the length of the price sequence, in the short-circuit branch and in
    the full-pipeline branch alike. *)
Theorem calculate_length (self : StochasticRSICalculator) (closes : list Q) :
  valid_config self ->
  exists out, calculate self closes = Ok out /\ length out = length closes.
Proof.
  intros Hcfg. destruct (too_short self closes) eqn:Hguard.
  - rewrite (calculate_short self closes Hguard).
    eexists. split; [reflexivity | apply length_replicate].
  - destruct (calculate_full self closes Hcfg Hguard)
      as (rs & kr & ks & ds & out & Hout & Hrun).
    exists out. split; [exact Hout | apply (run_length _ _ _ _ _ _ _ Hrun)].
Qed.

(** C3. Insufficient-data short-circuit: a price sequence shorter than
    [rsi_length + stoch_length + k_smooth + d_smooth - 2] makes [calculate]
    return, without running a stage, one reading per price with every
    field null. *)
Theorem calculate_insufficient (self : StochasticRSICalculator)
    (closes : list Q) :
  (Z.of_nat (length closes) <
     Z.of_nat (rsi_length self) + Z.of_nat (stoch_length self)
     + Z.of_nat (k_smooth self) + Z.of_nat (d_smooth self) - 2)%Z ->
  calculate self closes = Ok (replicate (length closes) null_reading) /\
  exists out, calculate self closes = Ok out /\
    length out = length closes /\
    forall i r, out !! i = Some r ->
      k r = None /\ d r = None /\ rsi r = None.
Proof.
  intros Hlen.
  assert (Hguard : too_short self closes = true).
  { unfold too_short. apply Z.ltb_lt. exact Hlen. }
  rewrite (calculate_short self closes Hguard).
  split; [reflexivity|]. eexists. split; [reflexivity|].
  split; [apply length_replicate|].
  intros i r Hr. apply lookup_replicate_1 in Hr as [-> _].
  repeat split.
Qed.

(** C8. No exception: for every price sequence and every configuration of
    four positive integers [calculate] returns normally, and so does each
    stage on every input it can be given; no division by zero, no index
    out of bounds, no arithmetic on a null cell. *)
Theorem calculate_returns (self : StochasticRSICalculator) (closes : list Q) :
  valid_config self ->
  returns (calculate self closes) /\
  returns (_calculate_rsi closes (rsi_length self)) /\
  (forall rsi_values,
     returns (_calculate_stoch_k rsi_values (stoch_length self))) /\
  (forall values, returns (_calculate_sma values (k_smooth self))) /\
  (forall values, returns (_calculate_sma values (d_smooth self))).
Proof.
  intros Hcfg. pose proof Hcfg as (HR & HS & HK & HD). unfold returns.
  split; [|split; [|split; [|split]]].
  - destruct (too_short self closes) eqn:Hguard.
    + rewrite (calculate_short self closes Hguard). eauto.
    + destruct (calculate_full self closes Hcfg Hguard)
        as (rs & kr & ks & ds & out & Hout & _).
      eauto.
  - destruct (calculate_rsi_warmup closes _ HR) as (out & Hout & _). eauto.
  - intros rsi_values.
    destruct (calculate_stoch_k_cells rsi_values _ HS) as (out & Hout & _).
    eauto.
  - intros values.
    destruct (calculate_sma_cells values _ HK) as (out & Hout & _). eauto.
  - intros values.
    destruct (calculate_sma_cells values _ HD) as (out & Hout & _). eauto.
Qed.



(** The spec's scenario, evaluated: lengths 2/2/1/1 on the prices 1..8. *)
Example scenario_output :
  calculate scenario one_to_eight =
  Ok [ mkStochRSIValue None None None;
       mkStochRSIValue None None None;
       mkStochRSIValue None None (Some 100);
       mkStochRSIValue (Some 50) (Some 50) (Some 100);
       mkStochRSIValue (Some 50) (Some 50) (Some 100);
       mkStochRSIValue (Some 50) (Some 50) (Some 100);
       mkStochRSIValue (Some 50) (Some 50) (Some 100);
       mkStochRSIValue (Some 50) (Some 50) (Some 100) ].
Proof. vm_compute. reflexivity. Qed.

(** Counterexample to C2 as stated.  With lengths 2/2/1/1 the first [d] is
    at index 3, and on the prices 1..8 the reading at index 2 already
    carries an RSI of 100. *)
Lemma null_prefix_counterexample :
  (exists out, calculate scenario one_to_eight = Ok out /\
     (2 < first_d_index scenario)%nat /\
     out !! 2%nat = Some (mkStochRSIValue None None (Some 100))) /\
  ~ null_prefix_claim scenario one_to_eight.
Proof.
  split.
  - eexists. split; [vm_compute; reflexivity|].
    split; [unfold first_d_index; simpl; lia | reflexivity].
  - intros (out & Hout & Hnull).
    vm_compute in Hout. injection Hout as <-.
    destruct (Hnull 2%nat (mkStochRSIValue None None (Some 100)))
      as (_ & _ & Hrsi).
    + unfold first_d_index. simpl. lia.
    + reflexivity.
    + discriminate Hrsi.
Qed.

(** Field by field, a reading is null below the first index of that field. *)
Lemma reading_fields (self : StochasticRSICalculator) (closes : list Q)
    (rs kr ks ds : list (option Q)) (out : list StochRSIValue)
    (i : nat) (r : StochRSIValue) :
  full_run self closes rs kr ks ds out -> out !! i = Some r ->
  (i < length closes)%nat /\
  ks !! i = Some (k r) /\ ds !! i = Some (d r) /\ rs !! i = Some (rsi r).
Proof.
  intros Hrun Hr.
  pose proof (lookup_lt_Some _ _ _ Hr) as Hi.
  rewrite (run_length _ _ _ _ _ _ _ Hrun) in Hi.
  destruct (run_zip _ _ _ _ _ _ _ Hrun i Hi)
    as (kv & dv & rv & Hk & Hd & Hrs & Hout_i).
  rewrite Hout_i in Hr. injection Hr as <-. simpl. auto.
Qed.

(** C2, amended. The [d] field is null at every index below
    [rsi_length + stoch_length + k_smooth + d_smooth - 3]; the [k] field is
    null below [rsi_length + stoch_length + k_smooth - 2] and the [rsi]
    field below [rsi_length], where all three are; so no reading has its
    three fields non-null before that threshold. *)
Theorem null_prefix (self : StochasticRSICalculator) (closes : list Q) :
  valid_config self ->
  exists out, calculate self closes = Ok out /\
    forall i r, out !! i = Some r ->
      ((i < first_d_index self)%nat -> d r = None) /\
      ((i < first_k_index self)%nat -> k r = None) /\
      ((i < rsi_length self)%nat ->
         k r = None /\ d r = None /\ rsi r = None).
Proof.
  intros Hcfg. pose proof Hcfg as (HR & HS & HK & HD).
  destruct (too_short self closes) eqn:Hguard.
  - rewrite (calculate_short self closes Hguard).
    eexists. split; [reflexivity|]. intros i r Hr.
    apply lookup_replicate_1 in Hr as [-> _]. simpl. auto.
  - destruct (calculate_full self closes Hcfg Hguard)
      as (rs & kr & ks & ds & out & Hout & Hrun).
    exists out. split; [exact Hout|]. intros i r Hr.
    destruct (reading_fields _ _ _ _ _ _ _ _ _ Hrun Hr)
      as (Hi & Hk & Hd & Hrs).
    assert (Hdn : (i < first_d_index self)%nat -> d r = None).
    { intros Hlt.
      pose proof (warmup_null _ _ _ i (run_d_shape _ _ _ _ _ _ _ Hrun)) as H.
      rewrite (run_d_length _ _ _ _ _ _ _ Hrun) in H.
      specialize (H Hi Hlt). congruence. }
    assert (Hkn : (i < first_k_index self)%nat -> k r = None).
    { intros Hlt.
      pose proof (warmup_null _ _ _ i (run_k_shape _ _ _ _ _ _ _ Hrun)) as H.
      rewrite (run_k_length _ _ _ _ _ _ _ Hrun) in H.
      specialize (H Hi Hlt). congruence. }
    split; [exact Hdn|]. split; [exact Hkn|]. intros Hlt.
    split; [apply Hkn; unfold first_k_index; lia|].
    split; [apply Hdn; unfold first_d_index; lia|].
    pose proof (warmup_null _ _ _ i (run_rsi_shape _ _ _ _ _ _ _ Hrun)) as H.
    rewrite (run_rsi_length _ _ _ _ _ _ _ Hrun) in H.
    specialize (H Hi Hlt). congruence.
Qed.

(** Once the guard is passed the reading at the first index of [d] has
    its three fields. *)
Lemma first_d_reading (self : StochasticRSICalculator) (closes : list Q) :
  valid_config self -> too_short self closes = false ->
  exists out kv dv rv, calculate self closes = Ok out /\
    out !! first_d_index self =
    Some (mkStochRSIValue (Some kv) (Some dv) (Some rv)).
Proof.
  intros Hcfg Hguard. pose proof Hcfg as (HR & HS & HK & HD).
  destruct (calculate_full self closes Hcfg Hguard)
    as (rs & kr & ks & ds & out & Hout & Hrun).
  apply (too_short_false self closes Hcfg) in Hguard.
  assert (Hi : (first_d_index self < length closes)%nat)
    by (unfold first_d_index, guard_length in *; lia).
  destruct (run_zip _ _ _ _ _ _ _ Hrun _ Hi)
    as (kv & dv & rv & Hk & Hd & Hrs & Hout_i).
  destruct (warmup_value _ _ _ (first_d_index self)
              (run_k_shape _ _ _ _ _ _ _ Hrun)) as (kx & Hkx & _).
  { rewrite (run_k_length _ _ _ _ _ _ _ Hrun).
    unfold first_k_index, first_d_index in *. lia. }
  destruct (warmup_value _ _ _ (first_d_index self)
              (run_d_shape _ _ _ _ _ _ _ Hrun)) as (dx & Hdx & _).
  { rewrite (run_d_length _ _ _ _ _ _ _ Hrun). lia. }
  destruct (warmup_value _ _ _ (first_d_index self)
              (run_rsi_shape _ _ _ _ _ _ _ Hrun)) as (rx & Hrx & _).
  { rewrite (run_rsi_length _ _ _ _ _ _ _ Hrun).
    unfold first_d_index in *. lia. }
  exists out, kx, dx, rx. split; [exact Hout|].
  rewrite Hout_i. congruence.
Qed.

(** Counterexample to C4 as stated.  The shortest input that passes the
    guard of lengths 2/2/1/1 has four prices, and its last reading is
    complete; and no input at all passes the guard and comes out all
    null. *)
Lemma loose_guard_counterexample :
  (too_short scenario [1; 2; 3] = true /\
   too_short scenario [1; 2; 3; 4] = false /\
   exists out, calculate scenario [1; 2; 3; 4] = Ok out /\
     out !! 3%nat = Some (mkStochRSIValue (Some 50) (Some 50) (Some 100))) /\
  ~ loose_guard_claim.
Proof.
  split.
  - split; [reflexivity|]. split; [reflexivity|].
    eexists. split; [vm_compute; reflexivity | reflexivity].
  - intros (self & closes & out & Hcfg & Hguard & Hout & Hnull).
    destruct (first_d_reading self closes Hcfg Hguard)
      as (out' & kv & dv & rv & Hout' & Hat).
    rewrite Hout in Hout'. injection Hout' as <-.
    destruct (Hnull _ _ Hat) as (Hk & _). discriminate Hk.
Qed.

(** C4, amended. The guard is exactly as strict as the first valid index:
    an input shorter than [rsi_length + stoch_length + k_smooth + d_smooth
    - 2] gets the all-null output of the guard, and every input that passes
    the guard has, at index [rsi_length + stoch_length + k_smooth +
    d_smooth - 3], a reading whose [k], [d] and [rsi] are all non-null. *)
Theorem guard_is_exact (self : StochasticRSICalculator) (closes : list Q) :
  valid_config self ->
  exists out, calculate self closes = Ok out /\
    ((length closes < guard_length self)%nat ->
       out = replicate (length closes) null_reading) /\
    ((guard_length self <= length closes)%nat ->
       exists kv dv rv,
         out !! first_d_index self =
         Some (mkStochRSIValue (Some kv) (Some dv) (Some rv))).
Proof.
  intros Hcfg. destruct (too_short self closes) eqn:Hguard.
  - rewrite (calculate_short self closes Hguard).
    apply (too_short_true self closes Hcfg) in Hguard.
    eexists. split; [reflexivity|]. split; [reflexivity | lia].
  - destruct (first_d_reading self closes Hcfg Hguard)
      as (out & kv & dv & rv & Hout & Hat).
    apply (too_short_false self closes Hcfg) in Hguard.
    exists out. split; [exact Hout|]. split; [lia|]. eauto.
Qed.

(** C5. The stochastic transform on a complete window: when the trailing
    window of [period] cells ending at [i] holds [period] non-null RSI
    values [w], the raw %K at [i] is exactly 50 if [max(w) == min(w)] and
    [(rsi[i] - min) / (max - min) * 100] otherwise; in particular it is 50
    when the values of the window are all equal. *)
Theorem stoch_k_flat_rule (rsi_values : list (option Q)) (period i : nat)
    (w : list Q) :
  (0 < period)%nat -> (period - 1 <= i < length rsi_values)%nat ->
  window_at rsi_values period i = Some <$> w ->
  exists k_values x mn mx,
    _calculate_stoch_k rsi_values period = Ok k_values /\
    rsi_values !! i = Some (Some x) /\
    Py.min w = Ok mn /\ Py.max w = Ok mx /\
    (mx == mn -> k_values !! i = Some (Some 50)) /\
    (~ mx == mn ->
       k_values !! i = Some (Some ((x - mn) / (mx - mn) * 100))) /\
    ((exists v, Forall (fun y => y == v) w) ->
       k_values !! i = Some (Some 50)).
Proof.
  intros Hp Hi Hw.
  destruct (calculate_stoch_k_cells rsi_values period Hp)
    as (k_values & Hout & _ & Hcells).
  destruct (stoch_k_cell_complete rsi_values period i w Hp Hi Hw)
    as (x & mn & mx & Hx & _ & Hmin & Hmax & _ & _ & Hcell).
  exists k_values, x, mn, mx.
  assert (Hat : k_values !! i = Some (Some (stoch_k_value x mn mx))).
  { rewrite (Hcells i) by lia.
    destruct (decide (period - 1 <= i)%nat); [|lia]. rewrite Hcell.
    reflexivity. }
  assert (Heq : mx == mn -> k_values !! i = Some (Some 50)).
  { intros E. rewrite Hat. unfold stoch_k_value.
    apply Qeq_bool_iff in E. rewrite E. reflexivity. }
  repeat (split; [assumption|]). split.
  - intros E. rewrite Hat. unfold stoch_k_value.
    apply Qeq_bool_false in E. rewrite E. reflexivity.
  - intros (v & Hv). apply Heq.
    destruct w as [|x0 r]; [discriminate Hmin|].
    simpl in Hmin, Hmax. injection Hmin as <-. injection Hmax as <-.
    apply Forall_cons in Hv as [Hx0 Hr].
    rewrite (fold_max2_const r x0 v Hx0 Hr).
    rewrite (fold_min2_const r x0 v Hx0 Hr). reflexivity.
Qed.

(** C7. The moving average: every index below [period - 1] is null; at an
    index [i >= period - 1] the output is null as soon as one cell of the
    trailing window is null, and is the arithmetic mean of the window when
    none is; every window is in one of the two cases, so the count test of
    the code is the any-null rule. *)
Theorem sma_rule (values : list (option Q)) (period : nat) :
  (0 < period)%nat ->
  exists sma_values, _calculate_sma values period = Ok sma_values /\
    length sma_values = length values /\
    forall i, (i < length values)%nat ->
      ((i < period - 1)%nat -> sma_values !! i = Some None) /\
      ((period - 1 <= i)%nat ->
         (forall j, (i + 1 - period <= j <= i)%nat ->
            values !! j = Some None -> sma_values !! i = Some None) /\
         (forall w, window_at values period i = Some <$> w ->
            length w = period /\
            sma_values !! i = Some (Some (Py.sum w / Py.of_nat period))) /\
         ((exists j, (i + 1 - period <= j <= i)%nat /\
                     values !! j = Some None) \/
          (exists w, window_at values period i = Some <$> w))).
Proof.
  intros Hp.
  destruct (calculate_sma_cells values period Hp)
    as (out & Hout & Hlen & Hcells).
  exists out. split; [exact Hout|]. split; [exact Hlen|].
  intros i Hi. rewrite (Hcells i Hi). split.
  - intros Hlt. destruct (decide (period - 1 <= i)%nat); [lia | reflexivity].
  - intros Hge. destruct (decide (period - 1 <= i)%nat); [|lia].
    pose proof (window_at_length values period i ltac:(lia)) as Hwlen.
    split; [|split].
    + intros j Hj Hnull.
      rewrite (sma_cell_hole values period i (j - (i + 1 - period)));
        [reflexivity | lia | lia |].
      rewrite window_at_lookup by lia.
      replace (i + 1 - period + (j - (i + 1 - period)))%nat with j by lia.
      exact Hnull.
    + intros w Hw. split.
      * rewrite Hw, length_fmap in Hwlen. exact Hwlen.
      * rewrite (sma_cell_complete values period i w ltac:(lia) Hw).
        reflexivity.
    + destruct (decide (length (valid_values (window_at values period i))
                        = length (window_at values period i))) as [Hfull|Hnot].
      * right. eexists. apply valid_values_full. exact Hfull.
      * left.
        assert (Hex : exists n, window_at values period i !! n = Some None).
        { clear -Hnot. induction (window_at values period i) as [|[x|] l IH].
          - contradiction.
          - destruct IH as [n Hn].
            + intros E. apply Hnot.
              change (valid_values (Some x :: l)) with (x :: valid_values l).
              simpl. f_equal. exact E.
            + exists (S n). exact Hn.
          - exists 0%nat. reflexivity. }
        destruct Hex as [n Hn].
        pose proof (lookup_lt_Some _ _ _ Hn) as Hnlt. rewrite Hwlen in Hnlt.
        rewrite window_at_lookup in Hn by exact Hnlt.
        exists (i + 1 - period + n)%nat. split; [lia | exact Hn].
Qed.

(** ** The zero-loss rule of the RSI stage *)

Lemma rsi_of_averages_zero_loss (g l r : Q) :
  l == 0 -> rsi_of_averages g l = Ok r ->
  r = if Py.Qltb 0 g then 100 else 0.
Proof.
  intros Hl. unfold rsi_of_averages.
  apply Qeq_bool_iff in Hl. rewrite Hl. intros [= <-]. reflexivity.
Qed.

(** The averages of the seed, as the source computes them. *)
Lemma rsi_seed_averages (closes : list Q) (period : nat) (s : rsi_state) :
  rsi_state_at closes period period = Ok s ->
  exists deltas, deltas_of closes = Ok deltas /\
    st_avg_gain s = Py.sum (take period (gains_of deltas)) / Py.of_nat period /\
    st_avg_loss s = Py.sum (take period (losses_of deltas)) / Py.of_nat period.
Proof.
  unfold rsi_state_at. rewrite range_empty by lia.
  destruct (deltas_of closes) as [deltas|e]; [|discriminate]. simpl.
  unfold rsi_seed, Py.truediv.
  destruct (Qeq_bool (Py.of_nat period) 0); [discriminate|]. simpl.
  destruct (rsi_of_averages _ _) as [r|e]; [|discriminate]. simpl.
  destruct (Py.setitem _ _ _) as [l|e]; [|discriminate]. simpl.
  intros [= <-]. exists deltas. simpl. auto.
Qed.

Lemma fold_plus_zero (l : list Q) (a : Q) :
  Forall (fun y => y == 0) l -> fold_left Qplus l a == a.
Proof.
  intros Hl. revert a. induction Hl as [|x l Hx _ IH]; intros a.
  - reflexivity.
  - simpl. rewrite IH, Hx. ring.
Qed.

Lemma mean_zero (l : list Q) (period : nat) :
  Forall (fun y => y == 0) l -> Py.sum l / Py.of_nat period == 0.
Proof.
  intros Hl. unfold Py.sum. rewrite (fold_plus_zero l 0 Hl).
  unfold Qdiv. ring.
Qed.

(** Equal consecutive prices over the warm-up make the first [period]
    deltas zero. *)
Lemma flat_deltas (closes deltas : list Q) (period : nat) :
  (forall j a b, (j < period)%nat ->
     closes !! S j = Some a -> closes !! j = Some b -> a == b) ->
  deltas_of closes = Ok deltas ->
  Forall (fun y => y == 0) (take period deltas).
Proof.
  intros Hflat Hd.
  destruct (deltas_of_spec closes) as (deltas' & Hd' & _ & HF).
  rewrite Hd in Hd'. injection Hd' as <-.
  apply Forall_lookup. intros j x Hx.
  apply lookup_take_Some in Hx as [Hx Hj].
  destruct (Forall2_lookup_r _ _ _ _ _ HF Hx) as (i & Hi & a & b & Ha & Hb & ->).
  unfold Py.range in Hi. apply lookup_seq in Hi as [-> _].
  simpl in Ha, Hb. rewrite Nat.sub_0_r in Hb.
  rewrite (Hflat j a b Hj Ha Hb). ring.
Qed.

Lemma flat_gains (l : list Q) :
  Forall (fun y => y == 0) l -> Forall (fun y => y == 0) (gains_of l).
Proof.
  intros Hl. unfold gains_of. induction Hl as [|x l Hx _ IH]; simpl.
  - constructor.
  - constructor; [|exact IH]. unfold Py.max2.
    destruct (Py.Qltb x 0); [reflexivity | exact Hx].
Qed.

Lemma flat_losses (l : list Q) :
  Forall (fun y => y == 0) l -> Forall (fun y => y == 0) (losses_of l).
Proof.
  intros Hl. unfold losses_of. induction Hl as [|x l Hx _ IH]; simpl.
  - constructor.
  - constructor; [|exact IH]. unfold Py.min2.
    destruct (Py.Qltb 0 x); [reflexivity|]. rewrite Hx. reflexivity.
Qed.

(** C6. The zero-loss rule: at every index [i >= period] of a series long
    enough, when the running average loss of the loop at [i] is zero the
    RSI written at [i] is exactly 100 if the running average gain is
    strictly positive and exactly 0 otherwise; and when the prices of the
    warm-up are all equal the RSI at index [period] is 0. *)
Theorem rsi_zero_loss_rule (closes : list Q) (period i : nat) :
  (0 < period)%nat -> (period <= i < length closes)%nat ->
  exists rsi_values s,
    _calculate_rsi closes period = Ok rsi_values /\
    rsi_state_at closes period i = Ok s /\
    (st_avg_loss s == 0 -> 0 < st_avg_gain s ->
       rsi_values !! i = Some (Some 100)) /\
    (st_avg_loss s == 0 -> ~ 0 < st_avg_gain s ->
       rsi_values !! i = Some (Some 0)) /\
    ((forall j a b, (j < period)%nat ->
        closes !! S j = Some a -> closes !! j = Some b -> a == b) ->
     rsi_values !! period = Some (Some 0)).
Proof.
  intros Hp Hi.
  destruct (rsi_state_at_stable closes period i (length closes - 1))
    as (s & t & Hs & Ht & Hinv & _ & Hsame); [lia..|].
  destruct (rsi_state_at_stable closes period period (length closes - 1))
    as (s0 & t' & Hs0 & Ht' & Hinv0 & _ & Hsame0); [lia..|].
  rewrite Ht in Ht'. injection Ht' as <-.
  exists (st_rsi_values t), s.
  rewrite calculate_rsi_unfold by lia. rewrite Ht. simpl.
  split; [reflexivity|]. split; [exact Hs|].
  destruct (inv_last _ _ _ _ Hinv) as (r & Hr & Hat).
  rewrite Hsame, Hat. split; [|split].
  - intros Hl Hg. rewrite (rsi_of_averages_zero_loss _ _ _ Hl Hr).
    apply Qltb_lt in Hg. rewrite Hg. reflexivity.
  - intros Hl Hg. rewrite (rsi_of_averages_zero_loss _ _ _ Hl Hr).
    destruct (Py.Qltb 0 (st_avg_gain s)) eqn:E; [|reflexivity].
    apply Qltb_lt in E. contradiction.
  - intros Hflat.
    destruct (inv_last _ _ _ _ Hinv0) as (r0 & Hr0 & Hat0).
    rewrite Hsame0, Hat0.
    destruct (rsi_seed_averages closes period s0 Hs0)
      as (deltas & Hd & Hg & Hl).
    pose proof (flat_deltas closes deltas period Hflat Hd) as Hzero.
    assert (Hl0 : st_avg_loss s0 == 0).
    { rewrite Hl. apply mean_zero. unfold losses_of.
      rewrite <- fmap_take. apply flat_losses. exact Hzero. }
    assert (Hg0 : st_avg_gain s0 == 0).
    { rewrite Hg. apply mean_zero. unfold gains_of.
      rewrite <- fmap_take. apply flat_gains. exact Hzero. }
    rewrite (rsi_of_averages_zero_loss _ _ _ Hl0 Hr0).
    destruct (Py.Qltb 0 (st_avg_gain s0)) eqn:E; [|reflexivity].
    apply Qltb_lt in E. lra.
Qed.

(** ** Calls and call history *)



(** ** The claims at concrete inputs *)

Lemma calculate_length_witness :
  valid_config scenario /\
  exists out, calculate scenario one_to_eight = Ok out /\
              length out = length one_to_eight.
Proof.
  split; [solve_config|].
  apply (calculate_length scenario one_to_eight). solve_config.
Defined.

Lemma null_prefix_witness :
  valid_config scenario /\
  exists out, calculate scenario one_to_eight = Ok out /\
    forall i r, out !! i = Some r ->
      ((i < first_d_index scenario)%nat -> d r = None) /\
      ((i < first_k_index scenario)%nat -> k r = None) /\
      ((i < rsi_length scenario)%nat ->
         k r = None /\ d r = None /\ rsi r = None).
Proof.
  split; [solve_config|].
  apply (null_prefix scenario one_to_eight). solve_config.
Defined.

Lemma calculate_insufficient_witness :
  (Z.of_nat (length [1; 2; 3]) <
     Z.of_nat (rsi_length scenario) + Z.of_nat (stoch_length scenario)
     + Z.of_nat (k_smooth scenario) + Z.of_nat (d_smooth scenario) - 2)%Z /\
  calculate scenario [1; 2; 3] = Ok (replicate 3 null_reading).
Proof.
  assert (H : (Z.of_nat (length [1; 2; 3]) <
     Z.of_nat (rsi_length scenario) + Z.of_nat (stoch_length scenario)
     + Z.of_nat (k_smooth scenario) + Z.of_nat (d_smooth scenario) - 2)%Z)
    by (simpl; lia).
  split; [exact H|].
  apply (calculate_insufficient scenario [1; 2; 3] H).
Defined.

Lemma guard_is_exact_witness :
  valid_config scenario /\
  exists out, calculate scenario [1; 2; 3; 4] = Ok out /\
    ((length [1; 2; 3; 4] < guard_length scenario)%nat ->
       out = replicate (length [1; 2; 3; 4]) null_reading) /\
    ((guard_length scenario <= length [1; 2; 3; 4])%nat ->
       exists kv dv rv,
         out !! first_d_index scenario =
         Some (mkStochRSIValue (Some kv) (Some dv) (Some rv))).
Proof.
  split; [solve_config|].
  apply (guard_is_exact scenario [1; 2; 3; 4]). solve_config.
Defined.

Lemma calculate_returns_witness :
  valid_config scenario /\ returns (calculate scenario one_to_eight).
Proof.
  split; [solve_config|].
  apply (calculate_returns scenario one_to_eight). solve_config.
Defined.


Lemma stoch_k_flat_rule_witness :
  (0 < 2)%nat /\
  (2 - 1 <= 2 < length [None; Some 100; Some 100])%nat /\
  window_at [None; Some 100; Some 100] 2 2 = Some <$> [100; 100] /\
  exists k_values,
    _calculate_stoch_k [None; Some 100; Some 100] 2 = Ok k_values /\
    k_values !! 2%nat = Some (Some 50).
Proof.
  assert (H1 : (0 < 2)%nat) by lia.
  assert (H2 : (2 - 1 <= 2 < length [None; Some 100; Some 100])%nat)
    by (simpl; lia).
  assert (H3 : window_at [None; Some 100; Some 100] 2 2
               = Some <$> [100; 100]) by reflexivity.
  split; [exact H1|]. split; [exact H2|]. split; [exact H3|].
  destruct (stoch_k_flat_rule [None; Some 100; Some 100] 2 2 [100; 100]
              H1 H2 H3)
    as (k_values & x & mn & mx & Hout & _ & _ & _ & _ & _ & Hflat).
  exists k_values. split; [exact Hout|]. apply Hflat.
  exists 100. repeat constructor.
Defined.

Lemma rsi_zero_loss_rule_witness :
  (0 < 2)%nat /\ (2 <= 2 < length [5; 5; 5; 6])%nat /\
  exists rsi_values,
    _calculate_rsi [5; 5; 5; 6] 2 = Ok rsi_values /\
    rsi_values !! 2%nat = Some (Some 0).
Proof.
  assert (H1 : (0 < 2)%nat) by lia.
  assert (H2 : (2 <= 2 < length [5; 5; 5; 6])%nat) by (simpl; lia).
  split; [exact H1|]. split; [exact H2|].
  destruct (rsi_zero_loss_rule [5; 5; 5; 6] 2 2 H1 H2)
    as (rsi_values & s & Hout & _ & _ & _ & Hflat).
  exists rsi_values. split; [exact Hout|]. apply Hflat.
  intros j a b Hj Ha Hb.
  destruct j as [|[|j]]; [| |lia];
    simpl in Ha, Hb; injection Ha as <-; injection Hb as <-; reflexivity.
Defined.

Lemma sma_rule_witness :
  (0 < 3)%nat /\
  exists sma_values,
    _calculate_sma [None; Some 30; Some 60; Some 90] 3 = Ok sma_values /\
    length sma_values = 4%nat.
Proof.
  assert (H1 : (0 < 3)%nat) by lia.
  split; [exact H1|].
  destruct (sma_rule [None; Some 30; Some 60; Some 90] 3 H1)
    as (sma_values & Hout & Hlen & _).
  exists sma_values. split; [exact Hout | exact Hlen].
Defined.

(** * Further properties of the stages *)

(** ** Where each stage is null *)

(** The RSI stage keeps the length of the prices, and its cell [i] is
    [None] exactly when [i < period]; on [period] prices or fewer that is
    every cell. *)
Theorem rsi_null_pattern (closes : list Q) (period : nat) :
  (0 < period)%nat ->
  exists rsi_values, _calculate_rsi closes period = Ok rsi_values /\
    length rsi_values = length closes /\
    forall i, (i < length closes)%nat ->
      (rsi_values !! i = Some None <-> (i < period)%nat).
Proof.
  intros Hp.
  destruct (calculate_rsi_warmup closes period Hp) as (out & Hout & Hlen & Hw).
  exists out. split; [exact Hout|]. split; [exact Hlen|].
  intros i Hi. rewrite <- Hlen in Hi. specialize (Hw i Hi).
  destruct (decide (i < period)%nat) as [Hlt|Hge].
  - split; auto.
  - destruct Hw as (x & Hx & _). rewrite Hx. split; [discriminate | lia].
Qed.

Lemma window_hole_index (values : list (option Q)) (period i : nat) :
  (0 < period)%nat -> (period - 1 <= i < length values)%nat ->
  (length (valid_values (window_at values period i)) < period)%nat <->
  exists j, (i + 1 - period <= j <= i)%nat /\ values !! j = Some None.
Proof.
  intros Hp Hi.
  pose proof (window_at_length values period i Hi) as Hwlen. split.
  - intros Hshort.
    assert (Hex : exists n, window_at values period i !! n = Some None).
    { assert (Hnot : length (valid_values (window_at values period i))
                     <> length (window_at values period i)) by lia.
      clear -Hnot. induction (window_at values period i) as [|[x|] l IH].
      - contradiction.
      - destruct IH as [n Hn].
        + intros E. apply Hnot.
          change (valid_values (Some x :: l)) with (x :: valid_values l).
          simpl. f_equal. exact E.
        + exists (S n). exact Hn.
      - exists 0%nat. reflexivity. }
    destruct Hex as [n Hn].
    pose proof (lookup_lt_Some _ _ _ Hn) as Hnlt. rewrite Hwlen in Hnlt.
    rewrite window_at_lookup in Hn by exact Hnlt.
    exists (i + 1 - period + n)%nat. split; [lia | exact Hn].
  - intros (j & Hj & Hnull). rewrite <- Hwlen at 2.
    apply (valid_values_hole _ (j - (i + 1 - period))).
    rewrite window_at_lookup by lia.
    replace (i + 1 - period + (j - (i + 1 - period)))%nat with j by lia.
    exact Hnull.
Qed.

(** The transform keeps the length of its input, on any input, and its
    cell [i] is [None] exactly when [i < period - 1] or some cell of the
    trailing window of [period] cells is [None]: one [None] in the window
    is enough to withhold the value. *)
Theorem stoch_k_null_rule (rsi_values : list (option Q)) (period : nat) :
  (0 < period)%nat ->
  exists k_values, _calculate_stoch_k rsi_values period = Ok k_values /\
    length k_values = length rsi_values /\
    forall i, (i < length rsi_values)%nat ->
      (k_values !! i = Some None <->
       (i < period - 1)%nat \/
       exists j, (i + 1 - period <= j <= i)%nat /\
                 rsi_values !! j = Some None).
Proof.
  intros Hp.
  destruct (calculate_stoch_k_cells rsi_values period Hp)
    as (out & Hout & Hlen & Hcells).
  exists out. split; [exact Hout|]. split; [exact Hlen|].
  intros i Hi. rewrite (Hcells i Hi).
  destruct (decide (period - 1 <= i)%nat) as [Hge|Hlt].
  2:{ split; [left; lia | reflexivity]. }
  rewrite <- (window_hole_index rsi_values period i Hp) by lia.
  pose proof (valid_values_length (window_at rsi_values period i)) as Hle.
  pose proof (window_at_length rsi_values period i ltac:(lia)) as Hwlen.
  destruct (decide (length (valid_values (window_at rsi_values period i))
                    < period)%nat) as [Hshort|Hfull].
  - split; [auto|]. intros _. unfold stoch_k_cell.
    apply Nat.ltb_lt in Hshort. rewrite Hshort. reflexivity.
  - assert (Heq : window_at rsi_values period i =
                  Some <$> valid_values (window_at rsi_values period i)).
    { apply valid_values_full. lia. }
    destruct (stoch_k_cell_complete rsi_values period i _ Hp ltac:(lia) Heq)
      as (x & mn & mx & _ & _ & _ & _ & _ & _ & Hcell).
    rewrite Hcell. split; [discriminate | intros [?|?]; lia].
Qed.

(** ** The extremes of the transform *)

(** On a complete window that is not flat, the raw %K is 100 when the
    current RSI is the maximum of the window and 0 when it is the
    minimum. *)
Theorem stoch_k_extremes (rsi_values : list (option Q)) (period i : nat)
    (w : list Q) :
  (0 < period)%nat -> (period - 1 <= i < length rsi_values)%nat ->
  window_at rsi_values period i = Some <$> w ->
  exists k_values x mn mx v,
    _calculate_stoch_k rsi_values period = Ok k_values /\
    rsi_values !! i = Some (Some x) /\
    Py.min w = Ok mn /\ Py.max w = Ok mx /\
    k_values !! i = Some (Some v) /\
    (~ mx == mn -> x == mx -> v == 100) /\
    (~ mx == mn -> x == mn -> v == 0).
Proof.
  intros Hp Hi Hw.
  destruct (calculate_stoch_k_cells rsi_values period Hp)
    as (k_values & Hout & _ & Hcells).
  destruct (stoch_k_cell_complete rsi_values period i w Hp Hi Hw)
    as (x & mn & mx & Hx & _ & Hmin & Hmax & _ & _ & Hcell).
  exists k_values, x, mn, mx, (stoch_k_value x mn mx).
  repeat (split; [assumption|]). split.
  { rewrite (Hcells i) by lia.
    destruct (decide (period - 1 <= i)%nat); [|lia]. rewrite Hcell.
    reflexivity. }
  unfold stoch_k_value. split; intros Hne Hxe;
    pose proof Hne as Hb; apply Qeq_bool_false in Hb; rewrite Hb;
    rewrite Hxe; field; intros E; apply Hne; lra.
Qed.

(** ** The moving average as an average *)



Lemma window_at_one (values : list (option Q)) (i : nat) (c : option Q) :
  values !! i = Some c -> window_at values 1 i = [c].
Proof.
  intros H. unfold window_at. replace (i + 1 - 1)%nat with i by lia.
  rewrite (drop_S _ _ _ H). reflexivity.
Qed.

(** A moving average of period 1 changes nothing: a [None] stays [None]
    and a number stays the same number. *)
Theorem sma_period_one (values : list (option Q)) :
  exists sma_values, _calculate_sma values 1 = Ok sma_values /\
    length sma_values = length values /\
    forall i,
      (values !! i = Some None -> sma_values !! i = Some None) /\
      (forall x, values !! i = Some (Some x) ->
         exists y, sma_values !! i = Some (Some y) /\ y == x).
Proof.
  destruct (calculate_sma_cells values 1 ltac:(lia))
    as (out & Hout & Hlen & Hcells).
  exists out. split; [exact Hout|]. split; [exact Hlen|].
  intros i. split.
  - intros Hnull. pose proof (lookup_lt_Some _ _ _ Hnull) as Hi.
    rewrite (Hcells i Hi). destruct (decide (1 - 1 <= i)%nat); [|lia].
    rewrite (sma_cell_hole values 1 i 0); [reflexivity | lia | lia |].
    rewrite (window_at_one values i None Hnull). reflexivity.
  - intros x Hx. pose proof (lookup_lt_Some _ _ _ Hx) as Hi.
    rewrite (Hcells i Hi). destruct (decide (1 - 1 <= i)%nat); [|lia].
    rewrite (sma_cell_complete values 1 i [x]);
      [| lia | apply (window_at_one values i (Some x) Hx)].
    eexists. split; [reflexivity|].
    unfold Py.sum. simpl. change (Py.of_nat 1) with 1. field.
Qed.

(** ** The running averages, step by step *)











(** ** Monotone prices *)









(** ** The pipeline on monotone prices *)







(** ** Which readings are complete *)

(** Past the guard each field is null on its own warm-up and nowhere
    else: [rsi] below [rsi_length], [k] below [rsi_length + stoch_length +
    k_smooth - 2] and [d] below [rsi_length + stoch_length + k_smooth +
    d_smooth - 3]; no reading after the warm-up has a hole. *)
Theorem field_warmups (self : StochasticRSICalculator) (closes : list Q) :
  valid_config self -> (guard_length self <= length closes)%nat ->
  exists out, calculate self closes = Ok out /\
    forall i r, out !! i = Some r ->
      (rsi r = None <-> (i < rsi_length self)%nat) /\
      (k r = None <-> (i < first_k_index self)%nat) /\
      (d r = None <-> (i < first_d_index self)%nat).
Proof.
  intros Hcfg Hlen. apply (too_short_false self closes Hcfg) in Hlen.
  destruct (calculate_full self closes Hcfg Hlen)
    as (rs & kr & ks & ds & out & Hout & Hrun).
  exists out. split; [exact Hout|]. intros i r Hr.
  destruct (reading_fields _ _ _ _ _ _ _ _ _ Hrun Hr)
    as (Hilt & Hk & Hd & Hrv).
  assert (Hcell : forall a l o, warmup a in_range l ->
            length l = length closes -> l !! i = Some o ->
            (o = None <-> (i < a)%nat)).
  { intros a l o Hw Hl Ho. rewrite <- Hl in Hilt. specialize (Hw i Hilt).
    destruct (decide (i < a)%nat) as [Hlt|Hge].
    - split; [auto | intros _; congruence].
    - destruct Hw as (x & Hx & _). split; [intros ->; congruence | lia]. }
  split; [|split].
  - apply (Hcell _ rs); [apply (run_rsi_shape _ _ _ _ _ _ _ Hrun)
                        | apply (run_rsi_length _ _ _ _ _ _ _ Hrun)
                        | exact Hrv].
  - apply (Hcell _ ks); [apply (run_k_shape _ _ _ _ _ _ _ Hrun)
                        | apply (run_k_length _ _ _ _ _ _ _ Hrun)
                        | exact Hk].
  - apply (Hcell _ ds); [apply (run_d_shape _ _ _ _ _ _ _ Hrun)
                        | apply (run_d_length _ _ _ _ _ _ _ Hrun)
                        | exact Hd].
Qed.

(** Under the guard even what could be computed is withheld: on more than
    [rsi_length] prices the RSI stage has a value at index [rsi_length],
    and [calculate] still returns the null reading there. *)
Theorem guard_withholds_rsi (self : StochasticRSICalculator)
    (closes : list Q) :
  valid_config self ->
  (rsi_length self < length closes < guard_length self)%nat ->
  exists out rsi_values x,
    calculate self closes = Ok out /\
    _calculate_rsi closes (rsi_length self) = Ok rsi_values /\
    rsi_values !! rsi_length self = Some (Some x) /\
    out !! rsi_length self = Some null_reading.
Proof.
  intros Hcfg Hlen. pose proof Hcfg as (HR & _).
  destruct (calculate_rsi_warmup closes _ HR) as (rs & Hrs & Hrlen & Hw).
  destruct (warmup_value _ _ _ (rsi_length self) Hw) as (x & Hx & _);
    [lia|].
  assert (Hguard : too_short self closes = true)
    by (apply (too_short_true self closes Hcfg); lia).
  exists (replicate (length closes) null_reading), rs, x.
  split; [apply calculate_short; exact Hguard|].
  split; [exact Hrs|]. split; [exact Hx|].
  apply lookup_replicate_2. lia.
Qed.

(** * The caller *)

Lemma tradingview_valid : valid_config tradingview.
Proof. unfold valid_config, tradingview. simpl. lia. Qed.

(** The elements that pass a test passed exactly from index [a] on are
    the suffix from [a]. *)
Lemma filter_suffix {A} (P : A -> bool) (l : list A) (a : nat) :
  (forall i x, l !! i = Some x -> (P x = true <-> (a <= i)%nat)) ->
  filter (fun v => P v = true) l = drop a l.
Proof.
  revert a. induction l as [|x l IH]; intros a H.
  - rewrite drop_nil. reflexivity.
  - destruct a as [|a].
    + rewrite filter_cons_True by (apply (H 0%nat x); [reflexivity | lia]).
      rewrite (IH 0%nat).
      * rewrite !drop_0. reflexivity.
      * intros i y Hy. split; [lia|]. intros _.
        apply (H (S i) y); [exact Hy | lia].
    + rewrite filter_cons_False.
      * simpl. apply IH. intros i y Hy.
        rewrite (H (S i) y Hy). lia.
      * intros Hx. apply (H 0%nat x) in Hx; [lia | reflexivity].
Qed.

Lemma rounded_of_all (l : list StochRSIValue) :
  Forall (fun v => has_k_and_d v = true) l ->
  exists rounded, comprehension_of l rounded_of = Ok rounded /\
    length rounded = length l /\
    forall j v, l !! j = Some v ->
      exists kx dx, k v = Some kx /\ d v = Some dx /\
        rounded !! j =
        Some (mkRounded (Some (round4 kx)) (Some (round4 dx))
                (round_if_truthy (rsi v))).
Proof.
  induction 1 as [|v l Hv _ (rounded & Hr & Hlen & Hat)].
  - exists []. split; [reflexivity|]. split; [reflexivity|].
    intros j v Hj. discriminate Hj.
  - unfold has_k_and_d in Hv.
    destruct (k v) as [kx|] eqn:Ek; [|discriminate].
    destruct (d v) as [dx|] eqn:Ed; [|discriminate].
    assert (Hv' : rounded_of v =
                  Ok (mkRounded (Some (round4 kx)) (Some (round4 dx))
                        (round_if_truthy (rsi v)))).
    { unfold rounded_of. rewrite Ek, Ed. reflexivity. }
    eexists. simpl comprehension_of. rewrite Hv'. simpl.
    rewrite Hr. simpl. split; [reflexivity|].
    split; [simpl; f_equal; exact Hlen|].
    intros [|j] u Hu.
    + injection Hu as <-. exists kx, dx. rewrite Ek, Ed. auto.
    + apply (Hat j u Hu).
Qed.

(** The readings of the default lengths on 32 prices or more. *)
Lemma tradingview_readings (closes : list Q) :
  (32 <= length closes)%nat ->
  exists out, calculate_stoch_rsi closes 14 14 3 3 = Ok out /\
    length out = length closes /\
    (forall i r, out !! i = Some r ->
       (has_k_and_d r = true <-> (31 <= i)%nat)) /\
    (forall i r, out !! i = Some r -> (31 <= i)%nat ->
       exists kv dv rv, k r = Some kv /\ d r = Some dv /\ rsi r = Some rv /\
         in_range kv /\ in_range dv /\ in_range rv).
Proof.
  intros Hlen. change (calculate_stoch_rsi closes 14 14 3 3)
    with (calculate tradingview closes).
  assert (Hguard : too_short tradingview closes = false).
  { apply (too_short_false _ _ tradingview_valid).
    unfold guard_length, tradingview. simpl. lia. }
  destruct (calculate_full tradingview closes tradingview_valid Hguard)
    as (rs & kr & ks & ds & out & Hout & Hrun).
  exists out. split; [exact Hout|].
  split; [apply (run_length _ _ _ _ _ _ _ Hrun)|].
  assert (Hfields : forall i r, out !! i = Some r ->
            ((31 <= i)%nat ->
               exists kv dv rv, k r = Some kv /\ d r = Some dv /\
                 rsi r = Some rv /\
                 in_range kv /\ in_range dv /\ in_range rv) /\
            ((i < 31)%nat -> d r = None)).
  { intros i r Hr.
    destruct (reading_fields _ _ _ _ _ _ _ _ _ Hrun Hr)
      as (Hilt & Hk & Hd & Hrv).
    split.
    - intros Hi.
      destruct (warmup_value _ _ _ i (run_k_shape _ _ _ _ _ _ _ Hrun))
        as (kv & Hkv & Hkr).
      { rewrite (run_k_length _ _ _ _ _ _ _ Hrun).
        unfold first_k_index, tradingview. simpl. lia. }
      destruct (warmup_value _ _ _ i (run_d_shape _ _ _ _ _ _ _ Hrun))
        as (dv & Hdv & Hdr).
      { rewrite (run_d_length _ _ _ _ _ _ _ Hrun).
        unfold first_d_index, tradingview. simpl. lia. }
      destruct (warmup_value _ _ _ i (run_rsi_shape _ _ _ _ _ _ _ Hrun))
        as (rv & Hrv' & Hrr).
      { rewrite (run_rsi_length _ _ _ _ _ _ _ Hrun).
        unfold tradingview. simpl. lia. }
      exists kv, dv, rv. split; [congruence|]. split; [congruence|].
      split; [congruence|]. auto.
    - intros Hi.
      pose proof (warmup_null _ _ _ i (run_d_shape _ _ _ _ _ _ _ Hrun)) as H.
      rewrite (run_d_length _ _ _ _ _ _ _ Hrun) in H.
      specialize (H Hilt). unfold first_d_index, tradingview in H.
      simpl in H. specialize (H Hi). congruence. }
  split.
  - intros i r Hr. destruct (Hfields i r Hr) as [Hhas Hnot].
    unfold has_k_and_d. split.
    + intros Hb. destruct (decide (31 <= i)%nat) as [|Hlt]; [assumption|].
      rewrite (Hnot ltac:(lia)) in Hb. destruct (k r); discriminate.
    + intros Hi. destruct (Hhas Hi) as (kv & dv & rv & -> & -> & _).
      reflexivity.
  - intros i r Hr Hi. apply (Hfields i r Hr). exact Hi.
Qed.

Lemma last_five_match {A} (l : list A) :
  match l with [] => [] | _ :: _ => last_five l end = last_five l.
Proof. destruct l; reflexivity. Qed.

Lemma calculate_pair_values_long (symbol interval : string) (volume : Q)
    (closes : list Q) (w : world) :
  (32 <= length closes)%nat ->
  exists out cur rounded,
    calculate_stoch_rsi closes 14 14 3 3 = Ok out /\
    length out = length closes /\
    out !! (length closes - 1)%nat = Some cur /\
    has_k_and_d cur = true /\
    Forall (fun v => has_k_and_d v = true)
      (drop (history_start (length closes)) out) /\
    comprehension_of (drop (history_start (length closes)) out) rounded_of
      = Ok rounded /\
    calculate_pair_values symbol interval volume closes w =
    Ok (pair_values symbol interval (length closes) rounded
          (Some (mkRounded (round_if_truthy (k cur))
                   (round_if_truthy (d cur)) (round_if_truthy (rsi cur)))),
        mkWorld (requests w)
          (db_log w ++
           [ save_stoch_rsi_data symbol interval (k cur) (d cur) (rsi cur)
               volume;
             save_candles symbol interval closes;
             save_history symbol interval
               (map history_of
                  (drop (history_start (length closes)) out)) ])).
Proof.
  intros Hlen.
  destruct (tradingview_readings closes Hlen)
    as (out & Hout & Holen & Hhas & _).
  destruct (lookup_lt_is_Some_2 out (length closes - 1)) as [cur Hcur];
    [lia|].
  assert (Hcurhas : has_k_and_d cur = true).
  { apply (Hhas _ _ Hcur). lia. }
  assert (Hall : Forall (fun v => has_k_and_d v = true)
                   (drop (history_start (length closes)) out)).
  { apply Forall_lookup. intros j v Hv. rewrite lookup_drop in Hv.
    apply (Hhas _ _ Hv). unfold history_start. lia. }
  destruct (rounded_of_all _ Hall) as (rounded & Hrounded & _).
  exists out, cur, rounded.
  repeat (split; [assumption|]).
  unfold calculate_pair_values. rewrite Hout. simpl.
  rewrite (filter_suffix has_k_and_d out 31 Hhas).
  rewrite last_five_match. unfold last_five.
  rewrite drop_drop, length_drop, Holen.
  replace (31 + (length closes - 31 - 5))%nat
    with (history_start (length closes)) by (unfold history_start; lia).
  rewrite Hrounded. simpl.
  rewrite last_lookup, Holen.
  replace (pred (length closes)) with (length closes - 1)%nat by lia.
  rewrite Hcur, Hcurhas. reflexivity.
Qed.

Lemma calculate_pair_values_short (symbol interval : string) (volume : Q)
    (closes : list Q) (w : world) :
  (0 < length closes < 32)%nat ->
  calculate_pair_values symbol interval volume closes w =
  Ok (pair_values symbol interval (length closes) []
        (Some (mkRounded None None None)), w).
Proof.
  intros Hlen. unfold calculate_pair_values.
  change (calculate_stoch_rsi closes 14 14 3 3)
    with (calculate tradingview closes).
  rewrite calculate_short.
  2:{ apply (too_short_true _ _ tradingview_valid).
      unfold guard_length, tradingview. simpl. lia. }
  simpl.
  assert (Hnone : filter (fun v => has_k_and_d v = true)
                    (replicate (length closes) null_reading) = []).
  { clear Hlen. induction (length closes) as [|n IH]; [reflexivity|].
    simpl. rewrite filter_cons_False by (simpl; discriminate). exact IH. }
  rewrite Hnone. simpl.
  rewrite last_lookup, length_replicate, lookup_replicate_2 by lia.
  reflexivity.
Qed.

Lemma calculate_pair_fetched (self : StochRSICalculatorCore)
    (symbol interval : string) (limit : nat) (volume : Q) (w : world) :
  get_klines (client self) (requests w) symbol interval limit <> [] ->
  calculate_pair self symbol interval limit volume w =
  calculate_pair_values symbol interval volume
    (get_klines (client self) (requests w) symbol interval limit)
    (mkWorld (S (requests w)) (db_log w)).
Proof.
  intros Hne. unfold calculate_pair.
  destruct (get_klines _ _ _ _ _); [contradiction | reflexivity].
Qed.

Lemma reading_eta (r : StochRSIValue) (kv dv rv : option Q) :
  k r = kv -> d r = dv -> rsi r = rv -> r = mkStochRSIValue kv dv rv.
Proof. destruct r. simpl. intros -> -> ->. reflexivity. Qed.

(** On fewer than 32 prices [calculate_pair] writes nothing to the
    database: a failed or empty fetch gives the error dictionary, and a
    short series gives a dictionary with no last values and an all-null
    current reading. *)
Theorem calculate_pair_no_write (self : StochRSICalculatorCore)
    (symbol interval : string) (limit : nat) (volume : Q) (w : world)
    (closes : list Q) :
  get_klines (client self) (requests w) symbol interval limit = closes ->
  (length closes < 32)%nat ->
  exists res,
    calculate_pair self symbol interval limit volume w =
    Ok (res, mkWorld (S (requests w)) (db_log w)) /\
    (closes = [] -> res = pair_error symbol no_prices) /\
    (closes <> [] ->
       res = pair_values symbol interval (length closes) []
               (Some (mkRounded None None None))).
Proof.
  intros Hfetch Hlen. destruct closes as [|c cs] eqn:E.
  - exists (pair_error symbol no_prices).
    unfold calculate_pair. rewrite Hfetch.
    split; [reflexivity|]. split; [reflexivity | contradiction].
  - rewrite <- E in *. eexists.
    rewrite calculate_pair_fetched by (rewrite Hfetch, E; discriminate).
    rewrite Hfetch.
    rewrite calculate_pair_values_short by (rewrite E in *; simpl in *; lia).
    split; [reflexivity|]. split; [rewrite E; discriminate | reflexivity].
Qed.


Lemma or_zero_eq (x : Q) : or_zero (Some x) == x.
Proof.
  unfold or_zero. destruct (Qeq_bool x 0) eqn:E; [|reflexivity].
  apply Qeq_bool_iff in E. rewrite E. reflexivity.
Qed.

(** The history saved on 32 prices or more is that of the last readings,
    oldest first: five of them, or all those from index 31 when there are
    fewer; each entry carries the [k] and [d] of its reading and a number
    equal to its [rsi] (the 0 that stands in for a missing [rsi] is never
    needed). *)
Theorem calculate_pair_history (self : StochRSICalculatorCore)
    (symbol interval : string) (limit : nat) (volume : Q) (w : world)
    (closes : list Q) :
  get_klines (client self) (requests w) symbol interval limit = closes ->
  (32 <= length closes)%nat ->
  exists res w' out history,
    calculate_pair self symbol interval limit volume w = Ok (res, w') /\
    calculate_stoch_rsi closes 14 14 3 3 = Ok out /\
    last (db_log w') = Some (save_history symbol interval history) /\
    length history = Nat.min 5 (length closes - 31) /\
    forall j h, history !! j = Some h ->
      exists kv dv rv,
        out !! (length closes - length history + j)%nat =
          Some (mkStochRSIValue (Some kv) (Some dv) (Some rv)) /\
        history_k h = Some kv /\ history_d h = Some dv /\
        history_rsi h == rv.
Proof.
  intros Hfetch Hlen.
  destruct (calculate_pair_values_long symbol interval volume closes
              (mkWorld (S (requests w)) (db_log w)) Hlen)
    as (out & cur & rounded & Hout & Holen & _ & _ & _ & _ & Hpair).
  destruct (tradingview_readings closes Hlen)
    as (out' & Hout' & _ & _ & Hvals).
  rewrite Hout in Hout'. injection Hout' as <-.
  do 2 eexists. exists out. eexists.
  rewrite calculate_pair_fetched, Hfetch.
  2:{ rewrite Hfetch. intros ->. simpl in Hlen. lia. }
  split; [exact Hpair|]. split; [exact Hout|].
  assert (Hhl : length (map history_of
                          (drop (history_start (length closes)) out))
                = Nat.min 5 (length closes - 31)).
  { rewrite length_map, length_drop, Holen. unfold history_start. lia. }
  split.
  { cbn [db_log]. rewrite last_app. reflexivity. }
  split; [exact Hhl|].
  intros j h Hh. rewrite Hhl.
  apply list_lookup_fmap_Some in Hh as (v & -> & Hv).
  rewrite lookup_drop in Hv.
  replace (length closes - Nat.min 5 (length closes - 31) + j)%nat
    with (history_start (length closes) + j)%nat
    by (unfold history_start; lia).
  destruct (Hvals _ _ Hv ltac:(unfold history_start; lia))
    as (kv & dv & rv & Hk & Hd & Hr & _).
  exists kv, dv, rv.
  split; [rewrite Hv; f_equal; apply reading_eta; assumption|].
  unfold history_of. cbn [history_k history_d history_rsi].
  split; [exact Hk|]. split; [exact Hd|].
  rewrite Hr. apply or_zero_eq.
Qed.

(** ** Rounding to four decimals *)




(** ** What [calculate_pair] reports *)


(** A current value of exactly 0 is stored and yet reported as missing:
    on 32 prices or more the [k], [d] and [rsi] of the last reading are
    all passed to [save_stoch_rsi_data], while the [current] entry of the
    returned dictionary has [None] for each of them that is 0, and its
    rounding otherwise. *)
Theorem calculate_pair_current (self : StochRSICalculatorCore)
    (symbol interval : string) (limit : nat) (volume : Q) (w : world)
    (closes : list Q) :
  get_klines (client self) (requests w) symbol interval limit = closes ->
  (32 <= length closes)%nat ->
  exists w' out last_values current kv dv rv,
    calculate_pair self symbol interval limit volume w =
    Ok (pair_values symbol interval (length closes) last_values
          (Some current), w') /\
    calculate_stoch_rsi closes 14 14 3 3 = Ok out /\
    last out = Some (mkStochRSIValue (Some kv) (Some dv) (Some rv)) /\
    save_stoch_rsi_data symbol interval (Some kv) (Some dv) (Some rv) volume
      ∈ db_log w' /\
    (kv == 0 -> rounded_k current = None) /\
    (~ kv == 0 -> rounded_k current = Some (round4 kv)) /\
    (dv == 0 -> rounded_d current = None) /\
    (~ dv == 0 -> rounded_d current = Some (round4 dv)) /\
    (rv == 0 -> rounded_rsi current = None) /\
    (~ rv == 0 -> rounded_rsi current = Some (round4 rv)).
Proof.
  intros Hfetch Hlen.
  destruct (calculate_pair_values_long symbol interval volume closes
              (mkWorld (S (requests w)) (db_log w)) Hlen)
    as (out & cur & rounded & Hout & Holen & Hcur & _ & _ & _ & Hpair).
  destruct (tradingview_readings closes Hlen)
    as (out' & Hout' & _ & _ & Hvals).
  rewrite Hout in Hout'. injection Hout' as <-.
  destruct (Hvals _ _ Hcur ltac:(lia))
    as (kv & dv & rv & Hk & Hd & Hr & _).
  eexists. exists out, rounded. eexists. exists kv, dv, rv.
  rewrite calculate_pair_fetched, Hfetch.
  2:{ rewrite Hfetch. intros ->. simpl in Hlen. lia. }
  split; [exact Hpair|]. split; [exact Hout|].
  split.
  { rewrite last_lookup, Holen.
    replace (pred (length closes)) with (length closes - 1)%nat by lia.
    rewrite Hcur. f_equal. apply reading_eta; assumption. }
  split.
  { cbn [db_log]. rewrite Hk, Hd, Hr. apply elem_of_app. right.
    apply list_elem_of_here. }
  rewrite Hk, Hd, Hr. cbn [rounded_k rounded_d rounded_rsi round_if_truthy].
  assert (Hz : forall x, (x == 0 ->
              (if Qeq_bool x 0 then None else Some (round4 x)) = None) /\
            (~ x == 0 ->
              (if Qeq_bool x 0 then None else Some (round4 x))
              = Some (round4 x))).
  { intros x. split; intros Hx.
    - apply Qeq_bool_iff in Hx. rewrite Hx. reflexivity.
    - apply Qeq_bool_false in Hx. rewrite Hx. reflexivity. }
  repeat split; apply Hz.
Qed.

(** ** Several pairs *)

Lemma calculate_pair_total (self : StochRSICalculatorCore)
    (symbol interval : string) (limit : nat) (volume : Q) (w : world) :
  exists res w' new,
    calculate_pair self symbol interval limit volume w = Ok (res, w') /\
    result_symbol res = symbol /\
    requests w' = S (requests w) /\
    db_log w' = db_log w ++ new.
Proof.
  set (closes := get_klines (client self) (requests w) symbol interval limit).
  destruct (decide (length closes < 32)%nat) as [Hshort|Hlong].
  - destruct closes as [|c cs] eqn:E.
    + exists (pair_error symbol no_prices),
        (mkWorld (S (requests w)) (db_log w)), [].
      unfold calculate_pair. fold closes. rewrite E.
      rewrite app_nil_r. auto.
    + rewrite <- E in *. eexists. exists (mkWorld (S (requests w)) (db_log w)), [].
      rewrite calculate_pair_fetched by (fold closes; rewrite E; discriminate).
      fold closes.
      rewrite calculate_pair_values_short
        by (rewrite E in *; simpl in *; lia).
      rewrite app_nil_r. auto.
  - destruct (calculate_pair_values_long symbol interval volume closes
                (mkWorld (S (requests w)) (db_log w)) ltac:(lia))
      as (out & cur & rounded & _ & _ & _ & _ & _ & _ & Hpair).
    do 3 eexists.
    rewrite calculate_pair_fetched.
    2:{ fold closes. intros E. rewrite E in Hlong. simpl in Hlong. lia. }
    fold closes. rewrite Hpair. cbn [requests db_log result_symbol]. auto.
Qed.

Lemma calculate_pairs_results (self : StochRSICalculatorCore)
    (symbols : list string) (interval : string) (limit : nat)
    (symbol_volumes : gmap string Q) (results : list pair_result)
    (w : world) :
  exists results' w' new,
    calculate_pairs self symbols interval limit symbol_volumes results w
      = Ok (results ++ results', w') /\
    map result_symbol results' = symbols /\
    requests w' = (requests w + length symbols)%nat /\
    db_log w' = db_log w ++ new.
Proof.
  revert results w. induction symbols as [|symbol symbols IH];
    intros results w.
  - exists [], w, []. simpl. rewrite !app_nil_r.
    split; [reflexivity|]. split; [reflexivity|]. split; [lia | reflexivity].
  - destruct (calculate_pair_total self symbol interval limit
                (default 0 (symbol_volumes !! symbol)) w)
      as (res & w1 & new1 & Hpair & Hsym & Hreq & Hlog).
    destruct (IH (results ++ [res]) w1)
      as (results' & w' & new & Hrest & Hsyms & Hreq' & Hlog').
    exists (res :: results'), w', (new1 ++ new).
    simpl calculate_pairs. rewrite Hpair. simpl. rewrite Hrest.
    rewrite <- app_assoc. split; [reflexivity|].
    split; [simpl; rewrite Hsym, Hsyms; reflexivity|].
    split; [rewrite Hreq', Hreq; simpl; lia|].
    rewrite Hlog', Hlog, app_assoc. reflexivity.
Qed.

(** [calculate_multiple] never raises and returns one dictionary per
    symbol, in the order of the symbols and under their names, a failed
    fetch included; it makes one request per symbol and only adds to the
    log of the database. *)
Theorem calculate_multiple_results (self : StochRSICalculatorCore)
    (symbols : list string) (interval : string) (limit : nat)
    (symbol_volumes : option (gmap string Q)) (w : world) :
  exists results w' new,
    calculate_multiple self symbols interval limit symbol_volumes w
      = Ok (results, w') /\
    map result_symbol results = symbols /\
    requests w' = (requests w + length symbols)%nat /\
    db_log w' = db_log w ++ new.
Proof.
  unfold calculate_multiple.
  destruct (calculate_pairs_results self symbols interval limit
              (default ∅ symbol_volumes) [] w)
    as (results & w' & new & Hres & Hsyms & Hreq & Hlog).
  exists results, w', new. auto.
Qed.

(** * The stages respect numeric equality *)














(** * Prices up to an affine change of unit *)











(** * Saturation and degenerate lengths *)



(** With a stochastic length of 1 every window is flat: the transform
    turns every number into 50 and leaves every [None]. *)
Theorem stoch_k_period_one (rsi_values : list (option Q)) :
  exists k_values, _calculate_stoch_k rsi_values 1 = Ok k_values /\
    length k_values = length rsi_values /\
    forall i,
      (rsi_values !! i = Some None -> k_values !! i = Some None) /\
      (forall x, rsi_values !! i = Some (Some x) ->
         k_values !! i = Some (Some 50)).
Proof.
  destruct (calculate_stoch_k_cells rsi_values 1 ltac:(lia))
    as (out & Hout & Hlen & Hcells).
  exists out. split; [exact Hout|]. split; [exact Hlen|].
  intros i. split.
  - intros Hnull. pose proof (lookup_lt_Some _ _ _ Hnull) as Hi.
    rewrite (Hcells i Hi). destruct (decide (1 - 1 <= i)%nat); [|lia].
    unfold stoch_k_cell. rewrite (window_at_one _ _ _ Hnull). reflexivity.
  - intros x Hx. pose proof (lookup_lt_Some _ _ _ Hx) as Hi.
    rewrite (Hcells i Hi). destruct (decide (1 - 1 <= i)%nat); [|lia].
    unfold stoch_k_cell. rewrite (window_at_one _ _ _ Hx). simpl.
    rewrite Hx. unfold stoch_k_value. rewrite Qeq_bool_refl. reflexivity.
Qed.

(** * Mirrored prices *)



















(** * The further properties at concrete inputs *)

Lemma rsi_null_pattern_witness :
  (0 < 2)%nat /\
  exists rsi_values, _calculate_rsi rising_five 2 = Ok rsi_values /\
    length rsi_values = length rising_five.
Proof.
  assert (H1 : (0 < 2)%nat) by lia. split; [exact H1|].
  destruct (rsi_null_pattern rising_five 2 H1) as (out & Hout & Hlen & _).
  exists out. split; [exact Hout | exact Hlen].
Defined.

Lemma stoch_k_null_rule_witness :
  (0 < 2)%nat /\
  exists k_values,
    _calculate_stoch_k [None; Some 100; Some 100] 2 = Ok k_values /\
    length k_values = 3%nat.
Proof.
  assert (H1 : (0 < 2)%nat) by lia. split; [exact H1|].
  destruct (stoch_k_null_rule [None; Some 100; Some 100] 2 H1)
    as (out & Hout & Hlen & _).
  exists out. split; [exact Hout | exact Hlen].
Defined.

Lemma stoch_k_extremes_witness :
  (0 < 2)%nat /\ (2 - 1 <= 1 < length [Some 10; Some 30])%nat /\
  window_at [Some 10; Some 30] 2 1 = Some <$> [10; 30] /\
  exists k_values v,
    _calculate_stoch_k [Some 10; Some 30] 2 = Ok k_values /\
    k_values !! 1%nat = Some (Some v) /\ v == 100.
Proof.
  assert (H1 : (0 < 2)%nat) by lia.
  assert (H2 : (2 - 1 <= 1 < length [Some 10; Some 30])%nat) by (simpl; lia).
  assert (H3 : window_at [Some 10; Some 30] 2 1 = Some <$> [10; 30])
    by reflexivity.
  split; [exact H1|]. split; [exact H2|]. split; [exact H3|].
  destruct (stoch_k_extremes [Some 10; Some 30] 2 1 [10; 30] H1 H2 H3)
    as (kv & x & mn & mx & v & Hout & Hx & Hmin & Hmax & Hat & H100 & _).
  simpl in Hx. injection Hx as <-.
  vm_compute in Hmin. injection Hmin as <-.
  vm_compute in Hmax. injection Hmax as <-.
  exists kv, v. split; [exact Hout|]. split; [exact Hat|].
  apply H100; [intros E; vm_compute in E; discriminate E | reflexivity].
Defined.






Lemma field_warmups_witness :
  valid_config scenario /\
  (guard_length scenario <= length one_to_eight)%nat /\
  exists out, calculate scenario one_to_eight = Ok out /\
    forall i r, out !! i = Some r ->
      (rsi r = None <-> (i < rsi_length scenario)%nat) /\
      (k r = None <-> (i < first_k_index scenario)%nat) /\
      (d r = None <-> (i < first_d_index scenario)%nat).
Proof.
  assert (H1 : valid_config scenario) by solve_config.
  assert (H2 : (guard_length scenario <= length one_to_eight)%nat)
    by (unfold guard_length; simpl; lia).
  split; [exact H1|]. split; [exact H2|].
  apply (field_warmups scenario one_to_eight H1 H2).
Defined.

Lemma guard_withholds_rsi_witness :
  valid_config scenario /\
  (rsi_length scenario < length [1; 2; 3] < guard_length scenario)%nat /\
  exists out rsi_values x,
    calculate scenario [1; 2; 3] = Ok out /\
    _calculate_rsi [1; 2; 3] (rsi_length scenario) = Ok rsi_values /\
    rsi_values !! rsi_length scenario = Some (Some x) /\
    out !! rsi_length scenario = Some null_reading.
Proof.
  assert (H1 : valid_config scenario) by solve_config.
  assert (H2 : (rsi_length scenario < length [1; 2; 3]
                < guard_length scenario)%nat)
    by (unfold guard_length; simpl; lia).
  split; [exact H1|]. split; [exact H2|].
  apply (guard_withholds_rsi scenario [1; 2; 3] H1 H2).
Defined.




Lemma calculate_pair_no_write_witness :
  get_klines (client rising_core) (requests fresh_world) "BTCUSDT" "1d" 100
    = rising_five /\
  (length rising_five < 32)%nat /\
  calculate_pair rising_core "BTCUSDT" "1d" 100 0 fresh_world =
  Ok (pair_values "BTCUSDT" "1d" 5 [] (Some (mkRounded None None None)),
      mkWorld 1 []).
Proof.
  assert (H1 : get_klines (client rising_core) (requests fresh_world)
                 "BTCUSDT" "1d" 100 = rising_five) by reflexivity.
  assert (H2 : (length rising_five < 32)%nat) by (simpl; lia).
  split; [exact H1|]. split; [exact H2|].
  destruct (calculate_pair_no_write rising_core "BTCUSDT" "1d" 100 0
              fresh_world rising_five H1 H2) as (res & Hres & _ & Hne).
  rewrite Hres. rewrite (Hne ltac:(discriminate)). reflexivity.
Defined.


Lemma calculate_pair_history_witness :
  get_klines (client up_down_core) (requests fresh_world) "BTCUSDT" "1d" 100
    = up_down /\
  (32 <= length up_down)%nat /\
  exists res w' history,
    calculate_pair up_down_core "BTCUSDT" "1d" 100 0 fresh_world
      = Ok (res, w') /\
    last (db_log w') = Some (save_history "BTCUSDT" "1d" history) /\
    length history = 2%nat.
Proof.
  assert (H1 : get_klines (client up_down_core) (requests fresh_world)
                 "BTCUSDT" "1d" 100 = up_down) by reflexivity.
  assert (H2 : (32 <= length up_down)%nat) by (simpl; lia).
  split; [exact H1|]. split; [exact H2|].
  destruct (calculate_pair_history up_down_core "BTCUSDT" "1d" 100 0
              fresh_world up_down H1 H2)
    as (res & w' & out & history & Hpair & _ & Hlast & Hlen & _).
  exists res, w', history.
  split; [exact Hpair|]. split; [exact Hlast | exact Hlen].
Defined.


Lemma calculate_pair_current_witness :
  get_klines (client up_down_core) (requests fresh_world) "BTCUSDT" "1d" 100
    = up_down /\
  (32 <= length up_down)%nat /\
  exists w' last_values current kv dv rv,
    calculate_pair up_down_core "BTCUSDT" "1d" 100 0 fresh_world =
    Ok (pair_values "BTCUSDT" "1d" 33 last_values (Some current), w') /\
    save_stoch_rsi_data "BTCUSDT" "1d" (Some kv) (Some dv) (Some rv) 0
      ∈ db_log w' /\
    kv == 0 /\ rounded_k current = None.
Proof.
  assert (H1 : get_klines (client up_down_core) (requests fresh_world)
                 "BTCUSDT" "1d" 100 = up_down) by reflexivity.
  assert (H2 : (32 <= length up_down)%nat) by (simpl; lia).
  split; [exact H1|]. split; [exact H2|].
  destruct (calculate_pair_current up_down_core "BTCUSDT" "1d" 100 0
              fresh_world up_down H1 H2)
    as (w' & out & last_values & current & kv & dv & rv
        & Hpair & Hout & Hlast & Hin & Hk0 & _).
  vm_compute in Hout. injection Hout as <-.
  vm_compute in Hlast. injection Hlast as <- <- <-.
  exists w', last_values, current. do 3 eexists.
  split; [exact Hpair|]. split; [exact Hin|].
  split; [reflexivity | apply Hk0; reflexivity].
Defined.
